(** * QuantFin-AnalyticX: Black-Scholes pricing, Greeks, portfolio payoff
      and the delta-hedging simulation

    A shallow embedding of [src/pricing.py], [src/greeks.py],
    [pages/1_thePortfolio.py] and [pages/3_theSimulation.py].

    Numbers.  Python [float] and [numpy.float64] values are read as real
    numbers: rounding, overflow, [inf] and [nan] are outside the model.
    Where numpy would produce [inf] or [nan] (logarithm of a non-positive
    number, division of a numpy float by zero) the real-valued expression
    below still has some value; only the absence of an exception is
    meaningful there, and the theorems of the claims do not speak about
    the value. *)

From Stdlib Require Import Reals Lra Lia ZArith Ascii String Bool List Classical.
Import ListNotations.

Open Scope R_scope.

(** ** The standard normal distribution ([scipy.stats.norm]) *)

Module Normal.

(** The unnormalised Gaussian density [exp (- t^2 / 2)]. *)
Definition gauss (t : R) : R := exp (- (t * t / 2)).

Lemma gauss_pos (t : R) : 0 < gauss t.
Proof. apply exp_pos. Qed.

Lemma gauss_even (t : R) : gauss (- t) = gauss t.
Proof. unfold gauss. f_equal. field. Qed.

Lemma gauss_derivable : derivable gauss.
Proof. unfold gauss. reg. Qed.

Lemma gauss_continuity : continuity gauss.
Proof. apply derivable_continuous, gauss_derivable. Qed.

(** The density is integrable on every segment, in either orientation. *)
Definition gauss_integrable (a b : R) : Riemann_integrable gauss a b :=
  match Rle_dec a b with
  | left Hab =>
      continuity_implies_RiemannInt Hab (fun x _ => gauss_continuity x)
  | right Hba =>
      RiemannInt_P1
        (continuity_implies_RiemannInt
           (Rlt_le _ _ (Rnot_le_lt _ _ Hba))
           (fun x _ => gauss_continuity x))
  end.

(** [gauss_area x] is the integral of the density from [0] to [x]. *)
Definition gauss_area (x : R) : R := RiemannInt (gauss_integrable 0 x).

Lemma gauss_area_0 : gauss_area 0 = 0.
Proof. apply RiemannInt_P9. Qed.

(** Chasles' relation, phrased on [gauss_area]. *)
Lemma gauss_area_diff (a b : R) :
  gauss_area b - gauss_area a = RiemannInt (gauss_integrable a b).
Proof.
  unfold gauss_area.
  rewrite <- (RiemannInt_P26 (gauss_integrable 0 a) (gauss_integrable a b)
                (gauss_integrable 0 b)).
  ring.
Qed.

(** Fundamental theorem of calculus: the area function is a primitive of
    the density on the whole line. *)
Lemma gauss_area_derivable_pt_lim (x : R) :
  derivable_pt_lim gauss_area x (gauss x).
Proof.
  assert (Hab : x - 1 <= x + 1) by lra.
  pose (C0 := fun (y : R) (_ : x - 1 <= y <= x + 1) => gauss_continuity y).
  pose (prim := primitive Hab (FTC_P1 Hab C0)).
  apply derivable_pt_lim_locally_ext
    with (f := fun z => prim z + gauss_area (x - 1)) (a := x - 1) (b := x + 1).
  - lra.
  - intros z Hz. unfold prim, primitive.
    destruct (Rle_dec (x - 1) z) as [H1 | H1]; [ | lra ].
    destruct (Rle_dec z (x + 1)) as [H2 | H2]; [ | lra ].
    rewrite (RiemannInt_P5 _ (gauss_integrable (x - 1) z)).
    rewrite <- gauss_area_diff. ring.
  - replace (gauss x) with (gauss x + 0) by ring.
    apply derivable_pt_lim_plus.
    + apply (RiemannInt_P28 Hab C0). lra.
    + apply derivable_pt_lim_const.
Qed.

Lemma gauss_area_derivable : derivable gauss_area.
Proof.
  intro x. exists (gauss x). apply gauss_area_derivable_pt_lim.
Qed.

Lemma gauss_area_derive (x : R) (pr : derivable_pt gauss_area x) :
  derive_pt gauss_area x pr = gauss x.
Proof. apply derive_pt_eq_0, gauss_area_derivable_pt_lim. Qed.

Lemma gauss_area_increasing (x y : R) :
  x <= y -> gauss_area x <= gauss_area y.
Proof.
  apply (nonneg_derivative_1 gauss_area gauss_area_derivable).
  intro z. rewrite gauss_area_derive. left. apply gauss_pos.
Qed.

(** The density is even, so the area function is odd. *)
Lemma gauss_area_odd (x : R) : gauss_area (- x) = - gauss_area x.
Proof.
  pose (H := fun z : R => gauss_area z + gauss_area (- z)).
  assert (HD : forall z, derivable_pt_lim H z 0).
  { intro z. unfold H.
    replace 0 with (gauss z + gauss (- z) * (- 1))
      by (rewrite gauss_even; ring).
    apply derivable_pt_lim_plus.
    - apply gauss_area_derivable_pt_lim.
    - apply (derivable_pt_lim_comp (fun t => - t) gauss_area).
      + apply (derivable_pt_lim_opp id z 1), derivable_pt_lim_id.
      + apply gauss_area_derivable_pt_lim. }
  assert (pr : derivable H) by (intro z; exists 0; apply HD).
  assert (Hc : constant H).
  { apply (null_derivative_1 H pr). intro z. apply derive_pt_eq_0, HD. }
  assert (E : H x = H 0) by apply Hc.
  unfold H in E. rewrite Ropp_0, gauss_area_0 in E. lra.
Qed.

(** The area is bounded: the density lies below [exp (1/2 - t)], whose
    integral over the half-line is [exp (1/2)]. *)
Lemma gauss_area_bounded (x : R) : gauss_area x <= exp (1 / 2).
Proof.
  pose (K := fun z : R => gauss_area z + exp (1 / 2 - z)).
  assert (HD : forall z, derivable_pt_lim K z (gauss z - exp (1 / 2 - z))).
  { intro z. unfold K.
    apply derivable_pt_lim_plus.
    - apply gauss_area_derivable_pt_lim.
    - replace (- exp (1 / 2 - z)) with (exp (1 / 2 - z) * (0 - 1)) by ring.
      apply (derivable_pt_lim_comp (fun t => 1 / 2 - t) exp).
      + apply derivable_pt_lim_minus.
        * apply derivable_pt_lim_const.
        * apply derivable_pt_lim_id.
      + apply derivable_pt_lim_exp. }
  assert (pr : derivable K)
    by (intro z; exists (gauss z - exp (1 / 2 - z)); apply HD).
  assert (Hdec : decreasing K).
  { apply (nonpos_derivative_1 K pr). intro z.
    rewrite (derive_pt_eq_0 _ _ _ (pr z) (HD z)).
    assert (gauss z <= exp (1 / 2 - z)); [ | lra ].
    unfold gauss.
    assert (Hle : - (z * z / 2) <= 1 / 2 - z)
      by (pose proof (Rle_0_sqr (z - 1)) as Hsq; unfold Rsqr in Hsq; lra).
    destruct Hle as [Hlt | Heq].
    - left. apply exp_increasing, Hlt.
    - rewrite Heq. apply Rle_refl. }
  destruct (Rle_lt_dec 0 x) as [Hx | Hx].
  - assert (E : K x <= K 0) by (apply Hdec, Hx).
    unfold K in E. rewrite gauss_area_0, Rminus_0_r in E.
    pose proof (exp_pos (1 / 2 - x)). lra.
  - assert (gauss_area x <= gauss_area 0)
      by (apply gauss_area_increasing; lra).
    rewrite gauss_area_0 in H. pose proof (exp_pos (1 / 2)). lra.
Qed.

Lemma gauss_area_1_pos : 0 < gauss_area 1.
Proof.
  assert (H : exp (- (1 / 2)) * (1 - 0) <= gauss_area 1 <= 1 * (1 - 0)).
  { apply RiemannInt_const_bound; [ lra | ].
    intros t Ht. unfold gauss. split.
    - assert (Hle : - (1 / 2) <= - (t * t / 2)) by nra.
      destruct Hle as [Hlt | Heq].
      + left. apply exp_increasing, Hlt.
      + rewrite Heq. apply Rle_refl.
    - rewrite <- exp_0. left. apply exp_increasing. nra. }
  pose proof (exp_pos (- (1 / 2))). lra.
Qed.

(** Half of the total mass: the supremum of the areas, that is, the
    integral of the density over the half-line (its value is
    [sqrt (PI / 2)]). *)
Definition gauss_area_values (y : R) : Prop := exists x, y = gauss_area x.

Lemma gauss_area_values_bound : bound gauss_area_values.
Proof.
  exists (exp (1 / 2)). intros y [x ->]. apply gauss_area_bounded.
Qed.

Lemma gauss_area_values_inhabited : exists y, gauss_area_values y.
Proof. exists (gauss_area 0), 0. reflexivity. Qed.

Definition half_mass : R :=
  proj1_sig
    (completeness gauss_area_values gauss_area_values_bound
       gauss_area_values_inhabited).

Lemma half_mass_lub : is_lub gauss_area_values half_mass.
Proof.
  unfold half_mass.
  destruct (completeness _ _ _) as [m Hm]. exact Hm.
Qed.

Lemma gauss_area_le_half_mass (x : R) : gauss_area x <= half_mass.
Proof. apply (proj1 half_mass_lub). exists x. reflexivity. Qed.

Lemma half_mass_pos : 0 < half_mass.
Proof.
  pose proof gauss_area_1_pos. pose proof (gauss_area_le_half_mass 1). lra.
Qed.

(** [norm.cdf]: the probability that a standard normal variable is at
    most [x], the mass left of [x] over the total mass. *)
Definition cdf (x : R) : R := (half_mass + gauss_area x) / (2 * half_mass).

(** [norm.pdf]: the standard normal density. *)
Definition pdf (x : R) : R := gauss x / sqrt (2 * PI).

Lemma cdf_opp (x : R) : cdf (- x) = 1 - cdf x.
Proof.
  unfold cdf. rewrite gauss_area_odd.
  pose proof half_mass_pos. field. lra.
Qed.

Lemma cdf_range (x : R) : 0 <= cdf x <= 1.
Proof.
  pose proof half_mass_pos as HL.
  pose proof (gauss_area_le_half_mass x) as Hu.
  pose proof (gauss_area_le_half_mass (- x)) as Hl.
  rewrite gauss_area_odd in Hl.
  unfold cdf. split.
  - apply Rmult_le_pos; [ lra | ]. left. apply Rinv_0_lt_compat. lra.
  - apply (Rmult_le_reg_r (2 * half_mass)); [ lra | ].
    unfold Rdiv. rewrite Rmult_assoc, Rinv_l by lra. lra.
Qed.

Lemma cdf_0 : cdf 0 = 1 / 2.
Proof.
  unfold cdf. rewrite gauss_area_0.
  pose proof half_mass_pos. field. lra.
Qed.

Lemma cdf_increasing (x y : R) : x <= y -> cdf x <= cdf y.
Proof.
  intro Hxy. pose proof half_mass_pos as HL.
  pose proof (gauss_area_increasing x y Hxy).
  unfold cdf, Rdiv. apply Rmult_le_compat_r; [ | lra ].
  left. apply Rinv_0_lt_compat. lra.
Qed.

End Normal.

(** ** Python values, exceptions and arithmetic *)

(** The values that reach the numerical core.  [bool] is a subclass of
    [int] and [numpy.float64] a subclass of [float], so both pass
    [isinstance(val, (int, float))]. *)
Inductive pyval : Type :=
| PyInt (n : Z)
| PyBool (b : bool)
| PyFloat (x : R)
| NpFloat (x : R)
| PyStr (s : string)
| PyNone.

Inductive exn : Type :=
| TypeError (name : string)
| ValueError
| ZeroDivisionError.

Inductive result (A : Type) : Type :=
| Ok (a : A)
| Raise (e : exn).

Arguments Ok {A} a.
Arguments Raise {A} e.

Definition bind {A B : Type} (m : result A) (k : A -> result B) : result B :=
  match m with
  | Ok a => k a
  | Raise e => Raise e
  end.

Notation "x <- m ;; k" := (bind m (fun x => k))
  (at level 61, m at next level, right associativity).

(** [isinstance(val, (int, float))] *)
Definition is_int_or_float (v : pyval) : bool :=
  match v with
  | PyInt _ | PyBool _ | PyFloat _ | NpFloat _ => true
  | PyStr _ | PyNone => false
  end.

(** Numbers built into Python, as opposed to numpy scalars. *)
Definition is_native (v : pyval) : bool :=
  match v with
  | PyInt _ | PyBool _ | PyFloat _ => true
  | _ => false
  end.

(** The real number a numeric value stands for. *)
Definition to_R (v : pyval) : R :=
  match v with
  | PyInt n => IZR n
  | PyBool b => if b then 1 else 0
  | PyFloat x | NpFloat x => x
  | PyStr _ | PyNone => 0
  end.

(** [a / b] on numeric values.  Dividing built-in numbers by zero raises
    [ZeroDivisionError]; as soon as one operand is a numpy scalar the
    division follows IEEE rules and raises nothing. *)
Definition py_div (a b : pyval) : result R :=
  if is_native a && is_native b
  then if Req_dec_T (to_R b) 0
       then Raise ZeroDivisionError
       else Ok (to_R a / to_R b)
  else Ok (to_R a / to_R b).

(** [x == 'call'] and [x == 'put'] *)
Definition is_call (v : pyval) : bool :=
  match v with
  | PyStr s => String.eqb s "call"
  | _ => false
  end.

Definition is_put (v : pyval) : bool :=
  match v with
  | PyStr s => String.eqb s "put"
  | _ => false
  end.

(** The validation loop: the first value that is no [int] or [float]
    raises [TypeError] under its name. *)
Fixpoint check_numeric (args : list (string * pyval)) : result unit :=
  match args with
  | [] => Ok tt
  | (name, val) :: rest =>
      if is_int_or_float val then check_numeric rest
      else Raise (TypeError name)
  end.

(** [if option_type not in ['call', 'put']: raise ValueError] *)
Definition check_option_type (option_type : pyval) : result unit :=
  if is_call option_type || is_put option_type then Ok tt
  else Raise ValueError.

(** ** [src/pricing.py] *)

Module Pricing.

Definition black_scholes (S K T r sigma option_type q : pyval) : result R :=
  _ <- check_numeric
         [("S", S); ("K", K); ("T", T); ("r", r); ("sigma", sigma); ("q", q)]%string ;;
  _ <- check_option_type option_type ;;
  if Rle_dec (to_R T) 0 then
    if is_call option_type
    then Ok (Rmax (to_R S - to_R K) 0)
    else Ok (Rmax (to_R K - to_R S) 0)
  else if Rle_dec (to_R sigma) 0 then
    if is_call option_type
    then Ok (exp (- to_R r * to_R T) * Rmax (to_R S - to_R K) 0)
    else Ok (exp (- to_R r * to_R T) * Rmax (to_R K - to_R S) 0)
  else
    ratio <- py_div S K ;;
    let d1 := (ln ratio + (to_R r - to_R q + 0.5 * to_R sigma ^ 2) * to_R T)
              / (to_R sigma * sqrt (to_R T)) in
    let d2 := d1 - to_R sigma * sqrt (to_R T) in
    if is_call option_type
    then Ok (to_R S * exp (- to_R q * to_R T) * Normal.cdf d1
             - to_R K * exp (- to_R r * to_R T) * Normal.cdf d2)
    else Ok (to_R K * exp (- to_R r * to_R T) * Normal.cdf (- d2)
             - to_R S * exp (- to_R q * to_R T) * Normal.cdf (- d1)).

End Pricing.

(** ** [src/greeks.py] *)

Module Greeks.

Record GreekCalculator : Type := {
  S : pyval;
  K : pyval;
  T : pyval;
  r : pyval;
  sigma : pyval;
  option_type : pyval;
  d1 : R;
  d2 : R
}.

Definition _compute_d1_d2 (S K T r sigma : pyval) : result (R * R) :=
  ratio <- py_div S K ;;
  let d1 := (ln ratio + (to_R r + 0.5 * to_R sigma ^ 2) * to_R T)
            / (to_R sigma * sqrt (to_R T)) in
  let d2 := d1 - to_R sigma * sqrt (to_R T) in
  Ok (d1, d2).

Definition __init__ (S K T r sigma option_type : pyval)
  : result GreekCalculator :=
  _ <- check_numeric
         [("S", S); ("K", K); ("T", T); ("r", r); ("sigma", sigma)]%string ;;
  _ <- check_option_type option_type ;;
  d <- _compute_d1_d2 S K T r sigma ;;
  Ok {| S := S; K := K; T := T; r := r; sigma := sigma;
        option_type := option_type; d1 := fst d; d2 := snd d |}.

Definition delta (self : GreekCalculator) : R :=
  if is_call (option_type self) then Normal.cdf (d1 self)
  else Normal.cdf (d1 self) - 1.

Definition gamma (self : GreekCalculator) : R :=
  Normal.pdf (d1 self)
  / (to_R (S self) * to_R (sigma self) * sqrt (to_R (T self))).

Definition vega (self : GreekCalculator) : R :=
  to_R (S self) * Normal.pdf (d1 self) * sqrt (to_R (T self)).

Definition theta (self : GreekCalculator) : R :=
  let first_term :=
    - (to_R (S self) * Normal.pdf (d1 self) * to_R (sigma self))
    / (2 * sqrt (to_R (T self))) in
  if is_call (option_type self)
  then first_term
       - to_R (r self) * to_R (K self)
         * exp (- to_R (r self) * to_R (T self)) * Normal.cdf (d2 self)
  else first_term
       + to_R (r self) * to_R (K self)
         * exp (- to_R (r self) * to_R (T self)) * Normal.cdf (- d2 self).

Definition rho (self : GreekCalculator) : R :=
  if is_call (option_type self)
  then to_R (K self) * to_R (T self)
       * exp (- to_R (r self) * to_R (T self)) * Normal.cdf (d2 self)
  else - to_R (K self) * to_R (T self)
       * exp (- to_R (r self) * to_R (T self)) * Normal.cdf (- d2 self).

Definition to_dict (self : GreekCalculator) : list (string * R) :=
  [("Delta (Δ)", delta self); ("Gamma (Γ)", gamma self);
   ("Vega (ν)", vega self); ("Theta (θ)", theta self);
   ("Rho (ρ)", rho self)]%string.

End Greeks.

(** ** numpy helpers *)

(** [np.linspace(start, stop, num)]: [num] evenly spaced points, both ends
    included. *)
Definition linspace (start stop : R) (num : nat) : list R :=
  map (fun k => start + INR k * ((stop - start) / INR (num - 1))) (seq 0 num).

(** [np.cumsum] along one row. *)
Fixpoint cumsum_from (acc : R) (row : list R) : list R :=
  match row with
  | [] => []
  | x :: rest => (acc + x) :: cumsum_from (acc + x) rest
  end.

Definition cumsum (row : list R) : list R := cumsum_from 0 row.

(** [np.zeros_like] *)
Definition zeros_like (a : list R) : list R := map (fun _ => 0) a.

(** [a[i] += x] on an array that has an index [i]. *)
Fixpoint add_at (i : nat) (x : R) (a : list R) : list R :=
  match a, i with
  | [], _ => []
  | y :: rest, O => (y + x) :: rest
  | y :: rest, Datatypes.S j => y :: add_at j x rest
  end.

(** [enumerate] *)
Definition enumerate {A : Type} (l : list A) : list (nat * A) :=
  combine (seq 0 (length l)) l.

(** ** [pages/3_theSimulation.py] *)

Module Simulation.

(** The closed-form delta.  It is called with a numpy float for [S], so the
    quotient [S / K] raises nothing. *)
Definition bs_delta (S K T r sigma : R) (option_type : string) : R :=
  let d1 := (ln (S / K) + (r + 0.5 * sigma ^ 2) * T) / (sigma * sqrt T) in
  if String.eqb option_type "call" then Normal.cdf d1
  else - Normal.cdf (- d1).

(** One row of [S_paths]: the Brownian path [W] is the running sum of the
    increments with a leading zero, mapped to prices along [t_vals]. *)
Definition gbm_path (S0 mu sigma : R) (t_vals dW_row : list R) : list R :=
  let W := 0 :: cumsum dW_row in
  map (fun tw => S0 * exp ((mu - 0.5 * sigma ^ 2) * fst tw + sigma * snd tw))
      (combine t_vals W).

(** The variables of the inner loop. *)
Record hedge_state : Type := {
  cash_account : R;
  delta_prev : R;
  deltas : list R;
  stock_track : list R
}.

Definition hedge_init : hedge_state :=
  {| cash_account := 0; delta_prev := 0; deltas := []; stock_track := [] |}.

Section PathLoop.

Variables (strike T r sigma dt : R) (option_type : string) (path : list R).

(** The body of [for i in range(N)] after the [break] test. *)
Definition hedge_step (i : nat) (st : hedge_state) : hedge_state :=
  let S_t := nth i path 0 in
  let tau := T - INR i * dt in
  let delta := bs_delta S_t strike tau r sigma option_type in
  let d_delta := delta - delta_prev st in
  let cash := cash_account st - d_delta * S_t in
  let cash := cash * exp (r * dt) in
  {| cash_account := cash;
     delta_prev := delta;
     deltas := deltas st ++ [delta];
     stock_track := stock_track st ++ [S_t] |}.

(** The loop over the indices still to visit; [tau <= 0] leaves it. *)
Fixpoint hedge_loop (indices : list nat) (st : hedge_state) : hedge_state :=
  match indices with
  | [] => st
  | i :: rest =>
      if Rle_dec (T - INR i * dt) 0 then st
      else hedge_loop rest (hedge_step i st)
  end.

End PathLoop.

(** What one pass of [for path in S_paths] appends to [pnl_paths],
    [stock_paths] and [delta_paths]. *)
Definition simulate_path (strike premium T r sigma dt : R)
    (option_type : string) (qty : Z) (N : nat) (path : list R)
  : R * list R * list R :=
  let st :=
    hedge_loop strike T r sigma dt option_type path (seq 0 N) hedge_init in
  let S_T := last path 0 in
  let payoff :=
    if String.eqb option_type "call" then Rmax (S_T - strike) 0
    else Rmax (strike - S_T) 0 in
  let hedge_value := delta_prev st * S_T + cash_account st in
  let pnl := (hedge_value - payoff) * IZR qty - premium * IZR qty in
  (pnl, stock_track st, deltas st).

(** What the run stores in the session state. *)
Record SimulationResult : Type := {
  t_vals : list R;
  stock_paths : list (list R);
  delta_paths : list (list R);
  pnl_paths : list R
}.

(** The block under [if st.button("Run Simulation")].  The draws
    [np.random.normal(0, sqrt(dt), size=(M, N))] are the argument [dW],
    one row per simulated path; [T] is a Python float and [N] a Python
    int, so [T / N] raises [ZeroDivisionError] when [N] is zero. *)
Definition run_simulation (S0 mu sigma strike premium T r : R)
    (option_type : string) (qty : Z) (N : nat) (dW : list (list R))
  : result SimulationResult :=
  dt <- py_div (PyFloat T) (PyInt (Z.of_nat N)) ;;
  let t_vals := linspace 0 T (N + 1) in
  let S_paths := map (gbm_path S0 mu sigma t_vals) dW in
  let out :=
    map (simulate_path strike premium T r sigma dt option_type qty N)
        S_paths in
  Ok {| t_vals := t_vals;
        stock_paths := map (fun o => snd (fst o)) out;
        delta_paths := map snd out;
        pnl_paths := map (fun o => fst (fst o)) out |}.

End Simulation.

(** ** [pages/1_thePortfolio.py] *)

Module Portfolio.

(** One entry of [st.session_state.portfolio].  [expiry] holds
    [(expiry_date - datetime.now()).days], the whole days left until the
    expiry date. *)
Record position : Type := {
  option_type : string;
  strike : R;
  qty : Z;
  expiry : Z;
  implied_volatility : R;
  premium : R
}.

Record totals : Type := {
  total_delta : list R;
  total_gamma : list R;
  total_vega : list R;
  total_theta : list R;
  total_rho : list R;
  total_payoff : list R
}.

Definition list_min (l : list R) : R :=
  match l with
  | [] => 0
  | x :: rest => fold_left Rmin rest x
  end.

Definition list_max (l : list R) : R :=
  match l with
  | [] => 0
  | x :: rest => fold_left Rmax rest x
  end.

Definition S_range (portfolio : list position) : list R :=
  let strikes := map strike portfolio in
  let S_min := Rmax 1 (list_min strikes * 0.6) in
  let S_max := list_max strikes * 1.4 in
  linspace S_min S_max 200.

(** [for i, S in enumerate(S_range)] for one position. *)
Fixpoint grid_loop (o_type : string) (K : R) (q : Z) (sigma prem T r : R)
    (grid : list (nat * R)) (tot : totals) : result totals :=
  match grid with
  | [] => Ok tot
  | entry :: rest =>
      let i := fst entry in
      let S := snd entry in
      greek <- Greeks.__init__ (NpFloat S) (PyFloat K) (PyFloat T)
                 (PyFloat r) (PyFloat sigma) (PyStr o_type) ;;
      let intrinsic_value :=
        if String.eqb o_type "call" then Rmax (S - K) 0
        else Rmax (K - S) 0 in
      grid_loop o_type K q sigma prem T r rest
        {| total_payoff :=
             add_at i (IZR q * (intrinsic_value - prem)) (total_payoff tot);
           total_delta :=
             add_at i (IZR q * Greeks.delta greek) (total_delta tot);
           total_gamma :=
             add_at i (IZR q * Greeks.gamma greek) (total_gamma tot);
           total_vega :=
             add_at i (IZR q * Greeks.vega greek) (total_vega tot);
           total_theta :=
             add_at i (IZR q * Greeks.theta greek) (total_theta tot);
           total_rho :=
             add_at i (IZR q * Greeks.rho greek) (total_rho tot) |}
  end.

(** [for option in st.session_state.portfolio] *)
Fixpoint portfolio_loop (grid : list R) (portfolio : list position)
    (tot : totals) : result totals :=
  match portfolio with
  | [] => Ok tot
  | option :: rest =>
      let T := Rmax (IZR (expiry option) / 365) 1e-6 in
      tot' <- grid_loop (option_type option) (strike option) (qty option)
                (implied_volatility option) (premium option) T 0.05
                (enumerate grid) tot ;;
      portfolio_loop grid rest tot'
  end.

(** The evaluation under [if st.session_state.portfolio]; an empty
    portfolio evaluates nothing. *)
Definition evaluate (portfolio : list position) : option (result totals) :=
  match portfolio with
  | [] => None
  | _ =>
      let grid := S_range portfolio in
      Some (portfolio_loop grid portfolio
              {| total_delta := zeros_like grid;
                 total_gamma := zeros_like grid;
                 total_vega := zeros_like grid;
                 total_theta := zeros_like grid;
                 total_rho := zeros_like grid;
                 total_payoff := zeros_like grid |})
  end.

End Portfolio.

(** ** The formulas as the specification writes them *)

Module Spec.

Definition d1 (S K T r sigma q : R) : R :=
  (ln (S / K) + (r - q + sigma ^ 2 / 2) * T) / (sigma * sqrt T).

Definition d2 (S K T r sigma q : R) : R :=
  d1 S K T r sigma q - sigma * sqrt T.

Definition call_price (S K T r sigma q : R) : R :=
  S * exp (- (q * T)) * Normal.cdf (d1 S K T r sigma q)
  - K * exp (- (r * T)) * Normal.cdf (d2 S K T r sigma q).

Definition put_price (S K T r sigma q : R) : R :=
  K * exp (- (r * T)) * Normal.cdf (- d2 S K T r sigma q)
  - S * exp (- (q * T)) * Normal.cdf (- d1 S K T r sigma q).

(** The price of an option of the given type, [call] or not. *)
Definition bsm_price (call : bool) (S K T r sigma q : R) : R :=
  if call then call_price S K T r sigma q else put_price S K T r sigma q.

(** [max(S-K,0)] for a call, [max(K-S,0)] for a put. *)
Definition intrinsic (call : bool) (S K : R) : R :=
  if call then Rmax (S - K) 0 else Rmax (K - S) 0.

End Spec.

(** * Properties *)

(** ** Validation *)

Definition numeric (v : pyval) : Prop := is_int_or_float v = true.

Definition valid_option_type (v : pyval) : Prop :=
  v = PyStr "call" \/ v = PyStr "put".

Lemma valid_option_type_iff (v : pyval) :
  valid_option_type v <-> is_call v || is_put v = true.
Proof.
  unfold valid_option_type. split.
  - intros [-> | ->]; reflexivity.
  - destruct v as [ | | | | s | ]; simpl; try discriminate.
    intro H. apply orb_true_iff in H.
    destruct H as [H | H]; apply String.eqb_eq in H; subst; auto.
Qed.

Lemma check_option_type_ok (v : pyval) :
  valid_option_type v -> check_option_type v = Ok tt.
Proof.
  intro H. apply valid_option_type_iff in H.
  unfold check_option_type. rewrite H. reflexivity.
Qed.

Lemma check_option_type_raise (v : pyval) :
  ~ valid_option_type v -> check_option_type v = Raise ValueError.
Proof.
  intro H. unfold check_option_type.
  destruct (is_call v || is_put v) eqn:E; [ | reflexivity ].
  exfalso. apply H, valid_option_type_iff, E.
Qed.

Lemma valid_option_type_dec (v : pyval) :
  {valid_option_type v} + {~ valid_option_type v}.
Proof.
  destruct (is_call v || is_put v) eqn:E.
  - left. apply valid_option_type_iff, E.
  - right. intro H. apply valid_option_type_iff in H. congruence.
Qed.

(** The loop accepts exactly the argument lists whose values are all
    numbers, and otherwise raises [TypeError] under a name of the list. *)
Lemma check_numeric_ok (args : list (string * pyval)) :
  Forall numeric (map snd args) -> check_numeric args = Ok tt.
Proof.
  induction args as [ | [name val] rest IH]; simpl; intro H.
  - reflexivity.
  - inversion H as [ | ? ? Hv Hr]; subst.
    unfold numeric in Hv. rewrite Hv. apply IH, Hr.
Qed.

Lemma check_numeric_raise (args : list (string * pyval)) :
  ~ Forall numeric (map snd args) ->
  exists name, In name (map fst args) /\
               check_numeric args = Raise (TypeError name).
Proof.
  induction args as [ | [name val] rest IH]; simpl; intro H.
  - exfalso. apply H. constructor.
  - destruct (is_int_or_float val) eqn:E.
    + destruct IH as [n [Hin Hn]].
      * intro Hr. apply H. constructor; assumption.
      * exists n. split; [ right; exact Hin | exact Hn ].
    + exists name. split; [ left; reflexivity | reflexivity ].
Qed.

Lemma Forall_numeric_dec (vals : list pyval) :
  {Forall numeric vals} + {~ Forall numeric vals}.
Proof.
  apply Forall_dec. intro v. unfold numeric.
  destruct (is_int_or_float v); [ left | right ]; congruence.
Qed.

(** [py_div] raises exactly when two built-in numbers are divided and the
    divisor is zero. *)
Definition zero_division (a b : pyval) : Prop :=
  is_native a && is_native b = true /\ to_R b = 0.

Lemma py_div_ok (a b : pyval) :
  ~ zero_division a b -> py_div a b = Ok (to_R a / to_R b).
Proof.
  unfold zero_division, py_div. intro H.
  destruct (is_native a && is_native b); [ | reflexivity ].
  destruct (Req_dec_T (to_R b) 0) as [E | E]; [ | reflexivity ].
  exfalso. apply H. auto.
Qed.

Lemma py_div_raise (a b : pyval) :
  zero_division a b -> py_div a b = Raise ZeroDivisionError.
Proof.
  unfold zero_division, py_div. intros [Hn Hz]. rewrite Hn.
  destruct (Req_dec_T (to_R b) 0); [ reflexivity | contradiction ].
Qed.

Lemma zero_division_dec (a b : pyval) :
  {zero_division a b} + {~ zero_division a b}.
Proof.
  unfold zero_division.
  destruct (is_native a && is_native b).
  - destruct (Req_dec_T (to_R b) 0) as [E | E].
    + left. auto.
    + right. intros [_ H]. contradiction.
  - right. intros [H _]. discriminate.
Qed.

(** ** [black_scholes] branch by branch *)

Section BlackScholesBranches.

Variables S K T r sigma option_type q : pyval.

Let args : list pyval := [S; K; T; r; sigma; q].

Lemma black_scholes_type_error :
  ~ Forall numeric args ->
  exists name,
    Pricing.black_scholes S K T r sigma option_type q
    = Raise (TypeError name).
Proof.
  intro H. unfold Pricing.black_scholes.
  destruct (check_numeric_raise
              [("S", S); ("K", K); ("T", T); ("r", r); ("sigma", sigma);
               ("q", q)]%string H) as [name [_ E]].
  exists name. rewrite E. reflexivity.
Qed.

Lemma black_scholes_value_error :
  Forall numeric args -> ~ valid_option_type option_type ->
  Pricing.black_scholes S K T r sigma option_type q = Raise ValueError.
Proof.
  intros Hn Hv. unfold Pricing.black_scholes.
  rewrite check_numeric_ok by exact Hn.
  rewrite check_option_type_raise by exact Hv. reflexivity.
Qed.

Lemma black_scholes_expired :
  Forall numeric args -> valid_option_type option_type ->
  to_R T <= 0 ->
  Pricing.black_scholes S K T r sigma option_type q
  = Ok (Spec.intrinsic (is_call option_type) (to_R S) (to_R K)).
Proof.
  intros Hn Hv HT. unfold Pricing.black_scholes.
  rewrite check_numeric_ok by exact Hn.
  rewrite check_option_type_ok by exact Hv. simpl.
  destruct (Rle_dec (to_R T) 0); [ | contradiction ].
  unfold Spec.intrinsic. destruct (is_call option_type); reflexivity.
Qed.

Lemma black_scholes_zero_volatility :
  Forall numeric args -> valid_option_type option_type ->
  0 < to_R T -> to_R sigma <= 0 ->
  Pricing.black_scholes S K T r sigma option_type q
  = Ok (exp (- (to_R r * to_R T))
        * Spec.intrinsic (is_call option_type) (to_R S) (to_R K)).
Proof.
  intros Hn Hv HT Hs. unfold Pricing.black_scholes.
  rewrite check_numeric_ok by exact Hn.
  rewrite check_option_type_ok by exact Hv. simpl.
  destruct (Rle_dec (to_R T) 0); [ lra | ].
  destruct (Rle_dec (to_R sigma) 0); [ | contradiction ].
  replace (- to_R r * to_R T) with (- (to_R r * to_R T)) by ring.
  unfold Spec.intrinsic. destruct (is_call option_type); reflexivity.
Qed.

Lemma black_scholes_formula :
  Forall numeric args -> valid_option_type option_type ->
  0 < to_R T -> 0 < to_R sigma -> ~ zero_division S K ->
  Pricing.black_scholes S K T r sigma option_type q
  = Ok (Spec.bsm_price (is_call option_type)
          (to_R S) (to_R K) (to_R T) (to_R r) (to_R sigma) (to_R q)).
Proof.
  intros Hn Hv HT Hs Hz. unfold Pricing.black_scholes.
  rewrite check_numeric_ok by exact Hn.
  rewrite check_option_type_ok by exact Hv. simpl.
  destruct (Rle_dec (to_R T) 0); [ lra | ].
  destruct (Rle_dec (to_R sigma) 0); [ lra | ].
  rewrite py_div_ok by exact Hz. simpl.
  unfold Spec.bsm_price, Spec.call_price, Spec.put_price, Spec.d2, Spec.d1.
  replace (- to_R r * to_R T) with (- (to_R r * to_R T)) by ring.
  replace (- to_R q * to_R T) with (- (to_R q * to_R T)) by ring.
  replace (0.5 * (to_R sigma * (to_R sigma * 1)))
    with (to_R sigma * (to_R sigma * 1) / 2) by lra.
  destruct (is_call option_type); reflexivity.
Qed.

Lemma black_scholes_zero_division :
  Forall numeric args -> valid_option_type option_type ->
  0 < to_R T -> 0 < to_R sigma -> zero_division S K ->
  Pricing.black_scholes S K T r sigma option_type q
  = Raise ZeroDivisionError.
Proof.
  intros Hn Hv HT Hs Hz. unfold Pricing.black_scholes.
  rewrite check_numeric_ok by exact Hn.
  rewrite check_option_type_ok by exact Hv. simpl.
  destruct (Rle_dec (to_R T) 0); [ lra | ].
  destruct (Rle_dec (to_R sigma) 0); [ lra | ].
  rewrite py_div_raise by exact Hz. reflexivity.
Qed.

End BlackScholesBranches.

(** ** The [GreekCalculator] constructor case by case *)

Section GreekCalculatorCases.

Variables S K T r sigma option_type : pyval.

Let args : list pyval := [S; K; T; r; sigma].

(** The object the constructor builds when nothing is raised. *)
Definition greek_object : Greeks.GreekCalculator :=
  let d1 := Spec.d1 (to_R S) (to_R K) (to_R T) (to_R r) (to_R sigma) 0 in
  {| Greeks.S := S; Greeks.K := K; Greeks.T := T; Greeks.r := r;
     Greeks.sigma := sigma; Greeks.option_type := option_type;
     Greeks.d1 := d1;
     Greeks.d2 := d1 - to_R sigma * sqrt (to_R T) |}.

Lemma init_type_error :
  ~ Forall numeric args ->
  exists name,
    Greeks.__init__ S K T r sigma option_type = Raise (TypeError name).
Proof.
  intro H. unfold Greeks.__init__.
  destruct (check_numeric_raise
              [("S", S); ("K", K); ("T", T); ("r", r); ("sigma", sigma)]%string
              H) as [name [_ E]].
  exists name. rewrite E. reflexivity.
Qed.

Lemma init_value_error :
  Forall numeric args -> ~ valid_option_type option_type ->
  Greeks.__init__ S K T r sigma option_type = Raise ValueError.
Proof.
  intros Hn Hv. unfold Greeks.__init__.
  rewrite check_numeric_ok by exact Hn.
  rewrite check_option_type_raise by exact Hv. reflexivity.
Qed.

Lemma init_zero_division :
  Forall numeric args -> valid_option_type option_type ->
  zero_division S K ->
  Greeks.__init__ S K T r sigma option_type = Raise ZeroDivisionError.
Proof.
  intros Hn Hv Hz. unfold Greeks.__init__, Greeks._compute_d1_d2.
  rewrite check_numeric_ok by exact Hn.
  rewrite check_option_type_ok by exact Hv. simpl.
  rewrite py_div_raise by exact Hz. reflexivity.
Qed.

Lemma init_ok :
  Forall numeric args -> valid_option_type option_type ->
  ~ zero_division S K ->
  Greeks.__init__ S K T r sigma option_type = Ok greek_object.
Proof.
  intros Hn Hv Hz. unfold Greeks.__init__, Greeks._compute_d1_d2.
  rewrite check_numeric_ok by exact Hn.
  rewrite check_option_type_ok by exact Hv. simpl.
  rewrite py_div_ok by exact Hz. simpl.
  unfold greek_object, Spec.d1. do 2 f_equal.
  - f_equal. f_equal. f_equal. lra.
  - f_equal. f_equal. f_equal. f_equal. lra.
Qed.

End GreekCalculatorCases.

Lemma positive_not_zero_division (a b : pyval) :
  0 < to_R b -> ~ zero_division a b.
Proof. intros Hb [_ Hz]. lra. Qed.

(** ** Pricing *)

(** C1, as amended.  For numeric arguments and an option type among
    [call] and [put], [black_scholes] takes its branches in this order:
    [T <= 0] returns the undiscounted intrinsic value whatever [sigma],
    [r] and [q] are; otherwise [sigma <= 0] returns the intrinsic value
    discounted by [exp (- r T)]; otherwise, for [S > 0] and [K > 0], it
    returns the Black-Scholes-Merton price of the specification. *)
Theorem black_scholes_edge_case_precedence
    (S K T r sigma option_type q : pyval) :
  Forall numeric [S; K; T; r; sigma; q] ->
  valid_option_type option_type ->
  (to_R T <= 0 ->
   Pricing.black_scholes S K T r sigma option_type q
   = Ok (Spec.intrinsic (is_call option_type) (to_R S) (to_R K)))
  /\ (0 < to_R T -> to_R sigma <= 0 ->
      Pricing.black_scholes S K T r sigma option_type q
      = Ok (exp (- (to_R r * to_R T))
            * Spec.intrinsic (is_call option_type) (to_R S) (to_R K)))
  /\ (0 < to_R T -> 0 < to_R sigma -> 0 < to_R S -> 0 < to_R K ->
      Pricing.black_scholes S K T r sigma option_type q
      = Ok (Spec.bsm_price (is_call option_type)
              (to_R S) (to_R K) (to_R T) (to_R r) (to_R sigma) (to_R q))).
Proof.
  intros Hn Hv. repeat split.
  - intro HT. apply black_scholes_expired; assumption.
  - intros HT Hs. apply black_scholes_zero_volatility; assumption.
  - intros HT Hs HS HK. apply black_scholes_formula; try assumption.
    apply positive_not_zero_division, HK.
Qed.

Lemma black_scholes_edge_case_precedence_witness :
  Pricing.black_scholes (PyInt 100) (PyInt 105) (PyInt 0) (PyFloat 0.05)
    (PyInt 0) (PyStr "put") (PyInt 0)
  = Ok (Spec.intrinsic false 100 105).
Proof.
  apply (black_scholes_edge_case_precedence
           (PyInt 100) (PyInt 105) (PyInt 0) (PyFloat 0.05) (PyInt 0)
           (PyStr "put") (PyInt 0)).
  - repeat constructor.
  - right. reflexivity.
  - simpl. lra.
Defined.

(** C1, the input that refutes the claim as first stated: all arguments
    are numeric, [T > 0] and [sigma > 0], yet a strike of zero makes the
    quotient [S / K] raise and no price is returned. *)
Lemma black_scholes_zero_strike_raises :
  Forall numeric
    [PyInt 50; PyInt 0; PyInt 2; PyFloat 0.01; PyFloat 0.3; PyInt 0]
  /\ 0 < to_R (PyInt 2) /\ 0 < to_R (PyFloat 0.3)
  /\ Pricing.black_scholes (PyInt 50) (PyInt 0) (PyInt 2) (PyFloat 0.01)
       (PyFloat 0.3) (PyStr "call") (PyInt 0)
     = Raise ZeroDivisionError
  /\ forall price,
       Pricing.black_scholes (PyInt 50) (PyInt 0) (PyInt 2) (PyFloat 0.01)
         (PyFloat 0.3) (PyStr "call") (PyInt 0)
       <> Ok price.
Proof.
  assert (E : Pricing.black_scholes (PyInt 50) (PyInt 0) (PyInt 2)
                (PyFloat 0.01) (PyFloat 0.3) (PyStr "call") (PyInt 0)
              = Raise ZeroDivisionError).
  { apply black_scholes_zero_division.
    - repeat constructor.
    - left. reflexivity.
    - simpl. lra.
    - simpl. lra.
    - split; reflexivity. }
  repeat split.
  - repeat constructor.
  - simpl. lra.
  - simpl. lra.
  - exact E.
  - intros price H. rewrite E in H. discriminate.
Qed.

(** C2.  Put-call parity over the reals: for positive [S], [K], [T] and
    [sigma] and any [r] and [q], both prices are returned and the call
    price minus the put price is [S exp (- q T) - K exp (- r T)]. *)
Theorem put_call_parity (S K T r sigma q : pyval) :
  Forall numeric [S; K; T; r; sigma; q] ->
  0 < to_R S -> 0 < to_R K -> 0 < to_R T -> 0 < to_R sigma ->
  exists call_price put_price,
    Pricing.black_scholes S K T r sigma (PyStr "call") q = Ok call_price
    /\ Pricing.black_scholes S K T r sigma (PyStr "put") q = Ok put_price
    /\ call_price - put_price
       = to_R S * exp (- (to_R q * to_R T))
         - to_R K * exp (- (to_R r * to_R T)).
Proof.
  intros Hn HS HK HT Hs.
  pose proof (positive_not_zero_division S K HK) as Hz.
  eexists. eexists. split; [ | split ].
  - apply black_scholes_formula; try assumption. left. reflexivity.
  - apply black_scholes_formula; try assumption. right. reflexivity.
  - simpl. unfold Spec.call_price, Spec.put_price.
    rewrite !Normal.cdf_opp. ring.
Qed.

Lemma put_call_parity_witness :
  exists call_price put_price,
    Pricing.black_scholes (PyInt 100) (PyInt 105) (PyInt 1) (PyFloat 0.05)
      (PyFloat 0.2) (PyStr "call") (PyInt 0) = Ok call_price
    /\ Pricing.black_scholes (PyInt 100) (PyInt 105) (PyInt 1)
         (PyFloat 0.05) (PyFloat 0.2) (PyStr "put") (PyInt 0)
       = Ok put_price
    /\ call_price - put_price
       = to_R (PyInt 100) * exp (- (to_R (PyInt 0) * to_R (PyInt 1)))
         - to_R (PyInt 105)
           * exp (- (to_R (PyFloat 0.05) * to_R (PyInt 1))).
Proof.
  apply (put_call_parity (PyInt 100) (PyInt 105) (PyInt 1) (PyFloat 0.05)
           (PyFloat 0.2) (PyInt 0)).
  - repeat constructor.
  - simpl. lra.
  - simpl. lra.
  - simpl. lra.
  - simpl. lra.
Defined.

(** ** Validation and exceptions *)

(** Every call of [black_scholes] falls in exactly one of four classes. *)
Lemma black_scholes_classes (S K T r sigma option_type q : pyval) :
  (~ Forall numeric [S; K; T; r; sigma; q]
   /\ exists name,
        Pricing.black_scholes S K T r sigma option_type q
        = Raise (TypeError name))
  \/ (Forall numeric [S; K; T; r; sigma; q]
      /\ ~ valid_option_type option_type
      /\ Pricing.black_scholes S K T r sigma option_type q
         = Raise ValueError)
  \/ (Forall numeric [S; K; T; r; sigma; q]
      /\ valid_option_type option_type
      /\ (0 < to_R T /\ 0 < to_R sigma /\ zero_division S K)
      /\ Pricing.black_scholes S K T r sigma option_type q
         = Raise ZeroDivisionError)
  \/ (Forall numeric [S; K; T; r; sigma; q]
      /\ valid_option_type option_type
      /\ ~ (0 < to_R T /\ 0 < to_R sigma /\ zero_division S K)
      /\ exists price,
           Pricing.black_scholes S K T r sigma option_type q = Ok price).
Proof.
  destruct (Forall_numeric_dec [S; K; T; r; sigma; q]) as [Hn | Hn].
  2: { left. split; [ exact Hn | ]. apply black_scholes_type_error, Hn. }
  right.
  destruct (valid_option_type_dec option_type) as [Hv | Hv].
  2: { left. repeat split; try assumption.
       apply black_scholes_value_error; assumption. }
  right.
  destruct (Rle_dec (to_R T) 0) as [HT | HT].
  { right. repeat split; try assumption.
    - intros [H _]. lra.
    - eexists. apply black_scholes_expired; assumption. }
  apply Rnot_le_lt in HT.
  destruct (Rle_dec (to_R sigma) 0) as [Hs | Hs].
  { right. repeat split; try assumption.
    - intros [_ [H _]]. lra.
    - eexists. apply black_scholes_zero_volatility; assumption. }
  apply Rnot_le_lt in Hs.
  destruct (zero_division_dec S K) as [Hz | Hz].
  - left. repeat split; try assumption; try apply Hz.
    apply black_scholes_zero_division; assumption.
  - right. repeat split; try assumption.
    + intros [_ [_ H]]. contradiction.
    + eexists. apply black_scholes_formula; assumption.
Qed.

(** The same for the constructor of [GreekCalculator]. *)
Lemma init_classes (S K T r sigma option_type : pyval) :
  (~ Forall numeric [S; K; T; r; sigma]
   /\ exists name,
        Greeks.__init__ S K T r sigma option_type = Raise (TypeError name))
  \/ (Forall numeric [S; K; T; r; sigma]
      /\ ~ valid_option_type option_type
      /\ Greeks.__init__ S K T r sigma option_type = Raise ValueError)
  \/ (Forall numeric [S; K; T; r; sigma]
      /\ valid_option_type option_type
      /\ zero_division S K
      /\ Greeks.__init__ S K T r sigma option_type
         = Raise ZeroDivisionError)
  \/ (Forall numeric [S; K; T; r; sigma]
      /\ valid_option_type option_type
      /\ ~ zero_division S K
      /\ exists greek,
           Greeks.__init__ S K T r sigma option_type = Ok greek).
Proof.
  destruct (Forall_numeric_dec [S; K; T; r; sigma]) as [Hn | Hn].
  2: { left. split; [ exact Hn | ]. apply init_type_error, Hn. }
  right.
  destruct (valid_option_type_dec option_type) as [Hv | Hv].
  2: { left. repeat split; try assumption.
       apply init_value_error; assumption. }
  right.
  destruct (zero_division_dec S K) as [Hz | Hz].
  - left. repeat split; try assumption; try apply Hz.
    apply init_zero_division; assumption.
  - right. repeat split; try assumption.
    eexists. apply init_ok; assumption.
Qed.

(** ** The range of the arguments

    Beyond a range of magnitudes Python and numpy raise exceptions of
    their own, for which [exn] has no case: [sigma ** 2] raises
    [OverflowError] for a [float] beyond about [1.3e154], so does an
    [int] too large for a [float] where it meets one, and numpy raises
    [TypeError] for an [int] beyond 64 bits.  The statements about which
    exceptions occur are therefore made for numbers of magnitude at most
    [10^9]: there every product of two [int]s fits 64 bits and no power
    leaves the range of [float], so that the exceptions of the model are
    those of the code. *)
Definition range_bound : R := 1000000000.

Definition real_in_range (x : R) : Prop := Rabs x <= range_bound.

Definition in_range (v : pyval) : Prop := real_in_range (to_R v).

Ltac in_range_solve :=
  unfold in_range, real_in_range, range_bound; simpl; apply Rabs_le; lra.

Ltac all_in_range :=
  repeat (apply Forall_cons; [ in_range_solve | ]); apply Forall_nil.

(** C5, as amended.  For arguments of magnitude at most [10^9]:
    [black_scholes] raises [TypeError] exactly when one of [S], [K], [T],
    [r], [sigma], [q] is no [int] or [float], whatever the option type
    is; otherwise it raises [ValueError] exactly when the option type is
    neither [call] nor [put]; otherwise it returns a value, except that
    for [T > 0] and [sigma > 0] a zero [K] dividing a built-in [S] raises
    [ZeroDivisionError].  The constructor of [GreekCalculator] validates
    [S], [K], [T], [r], [sigma] and the option type in the same way, and
    then raises [ZeroDivisionError] exactly when a zero [K] divides a
    built-in [S]. *)
Theorem validation_raises_iff (S K T r sigma option_type q : pyval) :
  Forall in_range [S; K; T; r; sigma; q] ->
  ((exists name,
      Pricing.black_scholes S K T r sigma option_type q
      = Raise (TypeError name))
   <-> ~ Forall numeric [S; K; T; r; sigma; q])
  /\ (Pricing.black_scholes S K T r sigma option_type q = Raise ValueError
      <-> Forall numeric [S; K; T; r; sigma; q]
          /\ ~ valid_option_type option_type)
  /\ (Pricing.black_scholes S K T r sigma option_type q
      = Raise ZeroDivisionError
      <-> Forall numeric [S; K; T; r; sigma; q]
          /\ valid_option_type option_type
          /\ 0 < to_R T /\ 0 < to_R sigma /\ zero_division S K)
  /\ ((exists price,
         Pricing.black_scholes S K T r sigma option_type q = Ok price)
      <-> Forall numeric [S; K; T; r; sigma; q]
          /\ valid_option_type option_type
          /\ ~ (0 < to_R T /\ 0 < to_R sigma /\ zero_division S K))
  /\ ((exists name,
         Greeks.__init__ S K T r sigma option_type
         = Raise (TypeError name))
      <-> ~ Forall numeric [S; K; T; r; sigma])
  /\ (Greeks.__init__ S K T r sigma option_type = Raise ValueError
      <-> Forall numeric [S; K; T; r; sigma]
          /\ ~ valid_option_type option_type)
  /\ (Greeks.__init__ S K T r sigma option_type = Raise ZeroDivisionError
      <-> Forall numeric [S; K; T; r; sigma]
          /\ valid_option_type option_type /\ zero_division S K)
  /\ ((exists greek,
         Greeks.__init__ S K T r sigma option_type = Ok greek)
      <-> Forall numeric [S; K; T; r; sigma]
          /\ valid_option_type option_type /\ ~ zero_division S K).
Proof.
  intros _.
  pose proof (black_scholes_classes S K T r sigma option_type q) as HB.
  pose proof (init_classes S K T r sigma option_type) as HG.
  repeat match goal with |- _ /\ _ => split end.
  1-4: destruct HB as [[Hn [name E]] | [[Hn [Hv E]] | [[Hn [Hv [Hz E]]]
                      | [Hn [Hv [Hz [price E]]]]]]];
       rewrite E; split;
       try (intros [? H]; discriminate H);
       try (intro H; discriminate H);
       try (intros; eexists; reflexivity);
       try reflexivity; try tauto.
  all: destruct HG as [[Hn [name E]] | [[Hn [Hv E]] | [[Hn [Hv [Hz E]]]
                      | [Hn [Hv [Hz [greek E]]]]]]];
       rewrite E; split;
       try (intros [? H]; discriminate H);
       try (intro H; discriminate H);
       try (intros; eexists; reflexivity);
       try reflexivity; try tauto.
Qed.

Lemma validation_raises_iff_witness :
  (exists price,
     Pricing.black_scholes (PyInt 100) (PyInt 105) (PyInt 1) (PyFloat 0.05)
       (PyFloat 0.2) (PyStr "call") (PyInt 0)
     = Ok price)
  /\ exists greek,
       Greeks.__init__ (PyInt 100) (PyInt 105) (PyInt 1) (PyFloat 0.05)
         (PyFloat 0.2) (PyStr "call")
       = Ok greek.
Proof.
  destruct (validation_raises_iff (PyInt 100) (PyInt 105) (PyInt 1)
              (PyFloat 0.05) (PyFloat 0.2) (PyStr "call") (PyInt 0))
    as [_ [_ [_ [HB [_ [_ [_ HG]]]]]]].
  - all_in_range.
  - split.
    + apply HB. split; [ repeat constructor | ].
      split; [ left; reflexivity | ].
      intros [_ [_ [_ Hz]]]. simpl in Hz. lra.
    + apply HG. split; [ repeat constructor | ].
      split; [ left; reflexivity | ].
      intros [_ Hz]. simpl in Hz. lra.
Defined.

(** C5, the input that refutes the claim as first stated: every argument
    is a number and the option type is [call], yet the call raises. *)
Lemma validated_call_raises_zero_division :
  Forall numeric
    [PyInt 100; PyInt 0; PyInt 1; PyFloat 0.05; PyFloat 0.2; PyInt 0]
  /\ valid_option_type (PyStr "call")
  /\ Pricing.black_scholes (PyInt 100) (PyInt 0) (PyInt 1) (PyFloat 0.05)
       (PyFloat 0.2) (PyStr "call") (PyInt 0)
     = Raise ZeroDivisionError.
Proof.
  repeat split.
  - repeat constructor.
  - left. reflexivity.
  - apply black_scholes_zero_division.
    + repeat constructor.
    + left. reflexivity.
    + simpl. lra.
    + simpl. lra.
    + split; reflexivity.
Qed.

(** C7, as amended.  A non-positive [T] raises no validation error.  With
    numeric arguments of magnitude at most [10^9] and a valid option
    type, [black_scholes] returns the undiscounted intrinsic value, and
    the constructor of [GreekCalculator] checks nothing about [T]: it
    builds its object, unless a zero [K] divides a built-in [S], which
    raises [ZeroDivisionError]. *)
Theorem nonpositive_T_raises_no_validation_error
    (S K T r sigma option_type q : pyval) :
  Forall numeric [S; K; T; r; sigma; q] ->
  Forall in_range [S; K; T; r; sigma; q] ->
  valid_option_type option_type ->
  to_R T <= 0 ->
  Pricing.black_scholes S K T r sigma option_type q
  = Ok (Spec.intrinsic (is_call option_type) (to_R S) (to_R K))
  /\ (~ zero_division S K ->
      exists greek,
        Greeks.__init__ S K T r sigma option_type = Ok greek
        /\ Greeks.T greek = T)
  /\ (zero_division S K ->
      Greeks.__init__ S K T r sigma option_type = Raise ZeroDivisionError).
Proof.
  intros Hn _ Hv HT.
  assert (Hn5 : Forall numeric [S; K; T; r; sigma]).
  { repeat match goal with
           | H : Forall _ (_ :: _) |- _ => inversion H; clear H; subst
           end.
    repeat constructor; assumption. }
  split; [ | split ].
  - apply black_scholes_expired; assumption.
  - intro Hz. exists (greek_object S K T r sigma option_type).
    split; [ apply init_ok; assumption | reflexivity ].
  - intro Hz. apply init_zero_division; assumption.
Qed.

Lemma nonpositive_T_raises_no_validation_error_witness :
  Pricing.black_scholes (PyFloat 100) (PyFloat 90) (PyFloat (-1))
    (PyFloat 0.05) (PyFloat 0.2) (PyStr "put") (PyInt 0)
  = Ok (Spec.intrinsic false 100 90)
  /\ exists greek,
       Greeks.__init__ (PyFloat 100) (PyFloat 90) (PyFloat (-1))
         (PyFloat 0.05) (PyFloat 0.2) (PyStr "put")
       = Ok greek
       /\ Greeks.T greek = PyFloat (-1).
Proof.
  destruct (nonpositive_T_raises_no_validation_error
              (PyFloat 100) (PyFloat 90) (PyFloat (-1)) (PyFloat 0.05)
              (PyFloat 0.2) (PyStr "put") (PyInt 0)) as [HB [HG _]].
  - repeat constructor.
  - all_in_range.
  - right. reflexivity.
  - simpl. lra.
  - split.
    + exact HB.
    + apply HG. apply positive_not_zero_division. simpl. lra.
Defined.

(** C7, the input that refutes the claim as first stated: with [T = 0]
    the price of a call at [S = 100], [K = 90] is returned, the number
    [10], and nothing is raised. *)
Lemma expired_call_returns_intrinsic :
  Pricing.black_scholes (PyInt 100) (PyInt 90) (PyInt 0) (PyFloat 0.05)
    (PyFloat 0.2) (PyStr "call") (PyInt 0)
  = Ok 10
  /\ exists greek,
       Greeks.__init__ (PyInt 100) (PyInt 90) (PyInt 0) (PyFloat 0.05)
         (PyFloat 0.2) (PyStr "call")
       = Ok greek.
Proof.
  split.
  - rewrite black_scholes_expired.
    + simpl. f_equal. unfold Rmax.
      destruct (Rle_dec (100 - 90) 0); lra.
    + repeat constructor.
    + left. reflexivity.
    + simpl. lra.
  - eexists. apply init_ok.
    + repeat constructor.
    + left. reflexivity.
    + apply positive_not_zero_division. simpl. lra.
Qed.

(** ** Delta *)

Lemma delta_greek_object (S K T r sigma option_type : pyval) :
  Greeks.delta (greek_object S K T r sigma option_type)
  = if is_call option_type
    then Normal.cdf
           (Spec.d1 (to_R S) (to_R K) (to_R T) (to_R r) (to_R sigma) 0)
    else Normal.cdf
           (Spec.d1 (to_R S) (to_R K) (to_R T) (to_R r) (to_R sigma) 0)
         - 1.
Proof. reflexivity. Qed.

Lemma bs_delta_spec (S K T r sigma : R) (option_type : string) :
  Simulation.bs_delta S K T r sigma option_type
  = if String.eqb option_type "call"
    then Normal.cdf (Spec.d1 S K T r sigma 0)
    else - Normal.cdf (- Spec.d1 S K T r sigma 0).
Proof.
  unfold Simulation.bs_delta, Spec.d1.
  replace (r + 0.5 * sigma ^ 2) with (r - 0 + sigma ^ 2 / 2) by lra.
  reflexivity.
Qed.

(** C3.  For positive [S], [K], [tau] and [sigma], any [r] and both
    option types, the simulator's [bs_delta] (the normal distribution
    function at [d1] for a call, minus its value at [- d1] for a put)
    equals [delta()] of the [GreekCalculator] built from the same inputs
    (the distribution function at [d1] for a call, that value minus one
    for a put). *)
Theorem bs_delta_equals_greek_delta
    (S K tau r sigma : pyval) (option_type : string) :
  Forall numeric [S; K; tau; r; sigma] ->
  0 < to_R S -> 0 < to_R K -> 0 < to_R tau -> 0 < to_R sigma ->
  option_type = "call"%string \/ option_type = "put"%string ->
  let d1 :=
    Spec.d1 (to_R S) (to_R K) (to_R tau) (to_R r) (to_R sigma) 0 in
  exists greek,
    Greeks.__init__ S K tau r sigma (PyStr option_type) = Ok greek
    /\ Simulation.bs_delta (to_R S) (to_R K) (to_R tau) (to_R r)
         (to_R sigma) option_type
       = (if String.eqb option_type "call" then Normal.cdf d1
          else - Normal.cdf (- d1))
    /\ Greeks.delta greek
       = (if String.eqb option_type "call" then Normal.cdf d1
          else Normal.cdf d1 - 1)
    /\ Simulation.bs_delta (to_R S) (to_R K) (to_R tau) (to_R r)
         (to_R sigma) option_type
       = Greeks.delta greek.
Proof.
  intros Hn HS HK Htau Hs Hot d1.
  exists (greek_object S K tau r sigma (PyStr option_type)).
  split; [ | split; [ | split ] ].
  - apply init_ok; try assumption.
    + destruct Hot as [-> | ->]; [ left | right ]; reflexivity.
    + apply positive_not_zero_division, HK.
  - apply bs_delta_spec.
  - apply delta_greek_object.
  - rewrite bs_delta_spec, delta_greek_object. simpl.
    destruct (String.eqb option_type "call"); [ reflexivity | ].
    rewrite Normal.cdf_opp. ring.
Qed.

Lemma bs_delta_equals_greek_delta_witness :
  exists greek,
    Greeks.__init__ (NpFloat 100) (PyFloat 105) (PyFloat 1) (PyFloat 0.05)
      (PyFloat 0.2) (PyStr "put")
    = Ok greek
    /\ Simulation.bs_delta 100 105 1 0.05 0.2 "put" = Greeks.delta greek.
Proof.
  destruct (bs_delta_equals_greek_delta
              (NpFloat 100) (PyFloat 105) (PyFloat 1) (PyFloat 0.05)
              (PyFloat 0.2) "put") as [greek [Hg [_ [_ E]]]].
  - repeat constructor.
  - simpl. lra.
  - simpl. lra.
  - simpl. lra.
  - simpl. lra.
  - right. reflexivity.
  - exists greek. split; [ exact Hg | exact E ].
Defined.

(** C8.  For positive [S], [K], [T] and [sigma] and any [r], the delta of
    a call lies in [[0, 1]] and the delta of a put in [[-1, 0]]. *)
Theorem delta_bounds (S K T r sigma option_type : pyval) :
  Forall numeric [S; K; T; r; sigma] ->
  0 < to_R S -> 0 < to_R K -> 0 < to_R T -> 0 < to_R sigma ->
  valid_option_type option_type ->
  exists greek,
    Greeks.__init__ S K T r sigma option_type = Ok greek
    /\ (option_type = PyStr "call" -> 0 <= Greeks.delta greek <= 1)
    /\ (option_type = PyStr "put" -> -1 <= Greeks.delta greek <= 0).
Proof.
  intros Hn HS HK HT Hs Hv.
  exists (greek_object S K T r sigma option_type).
  split; [ | split ].
  - apply init_ok; try assumption.
    apply positive_not_zero_division, HK.
  - intros ->. rewrite delta_greek_object. simpl.
    apply Normal.cdf_range.
  - intros ->. rewrite delta_greek_object. simpl.
    pose proof (Normal.cdf_range
                  (Spec.d1 (to_R S) (to_R K) (to_R T) (to_R r)
                     (to_R sigma) 0)).
    lra.
Qed.

Lemma delta_bounds_witness :
  exists greek,
    Greeks.__init__ (PyInt 100) (PyInt 105) (PyInt 1) (PyFloat 0.05)
      (PyFloat 0.2) (PyStr "put")
    = Ok greek
    /\ -1 <= Greeks.delta greek <= 0.
Proof.
  destruct (delta_bounds (PyInt 100) (PyInt 105) (PyInt 1) (PyFloat 0.05)
              (PyFloat 0.2) (PyStr "put")) as [greek [Hg [_ Hput]]].
  - repeat constructor.
  - simpl. lra.
  - simpl. lra.
  - simpl. lra.
  - simpl. lra.
  - right. reflexivity.
  - exists greek. split; [ exact Hg | apply Hput; reflexivity ].
Defined.

(** ** The hedging loop *)

Lemma firstn_succ_nth (l : list R) (k : nat) :
  (k < length l)%nat -> firstn (Datatypes.S k) l = firstn k l ++ [nth k l 0].
Proof.
  revert k. induction l as [ | x l IH]; intros k Hk; simpl in Hk.
  - lia.
  - destruct k as [ | k]; [ reflexivity | ].
    simpl. f_equal. apply IH. lia.
Qed.

Lemma linspace_length (start stop : R) (num : nat) :
  length (linspace start stop num) = num.
Proof. unfold linspace. rewrite length_map, length_seq. reflexivity. Qed.

Lemma cumsum_from_length (acc : R) (row : list R) :
  length (cumsum_from acc row) = length row.
Proof.
  revert acc. induction row as [ | x row IH]; intro acc; simpl.
  - reflexivity.
  - f_equal. apply IH.
Qed.

Lemma gbm_path_length (S0 mu sigma : R) (t_vals dW_row : list R) (N : nat) :
  length t_vals = Datatypes.S N -> length dW_row = N ->
  length (Simulation.gbm_path S0 mu sigma t_vals dW_row) = Datatypes.S N.
Proof.
  intros Ht Hr. unfold Simulation.gbm_path, cumsum.
  rewrite length_map, length_combine. simpl.
  rewrite cumsum_from_length, Ht, Hr. apply Nat.min_id.
Qed.

(** The time left at step [i] of [N] is positive. *)
Lemma remaining_time_pos (T : R) (N i : nat) :
  0 < T -> (i < N)%nat -> 0 < T - INR i * (T / INR N).
Proof.
  intros HT Hi.
  assert (HN : 0 < INR N) by (apply lt_0_INR; lia).
  assert (HiN : INR i < INR N) by (apply lt_INR, Hi).
  assert (E : T - INR i * (T / INR N) = T * (INR N - INR i) / INR N)
    by (field; lra).
  rewrite E. apply Rdiv_lt_0_compat; [ | exact HN ].
  apply Rmult_lt_0_compat; lra.
Qed.

Lemma time_step_ok (T : R) (N : nat) :
  (0 < N)%nat ->
  py_div (PyFloat T) (PyInt (Z.of_nat N)) = Ok (T / INR N).
Proof.
  intro HN. rewrite py_div_ok.
  - simpl. rewrite <- INR_IZR_INZ. reflexivity.
  - intros [_ Hz]. simpl in Hz. rewrite <- INR_IZR_INZ in Hz.
    assert (0 < INR N) by (apply lt_0_INR; lia). lra.
Qed.

Lemma time_step_raises (T : R) :
  py_div (PyFloat T) (PyInt (Z.of_nat 0)) = Raise ZeroDivisionError.
Proof. apply py_div_raise. split; reflexivity. Qed.

Section HedgeLoopFacts.

Variables (strike T r sigma dt : R) (option_type : string) (path : list R).

Let step := Simulation.hedge_step strike T r sigma dt option_type path.
Let loop := Simulation.hedge_loop strike T r sigma dt option_type path.

(** The state after the first [k] rebalancing steps, none skipped. *)
Definition after_steps (k : nat) : Simulation.hedge_state :=
  fold_left (fun st i => step i st) (seq 0 k) Simulation.hedge_init.

Lemma after_steps_succ (k : nat) :
  after_steps (Datatypes.S k) = step k (after_steps k).
Proof.
  unfold after_steps. rewrite seq_S, fold_left_app. reflexivity.
Qed.

Lemma hedge_loop_no_break (indices : list nat) (st : Simulation.hedge_state) :
  (forall i, In i indices -> 0 < T - INR i * dt) ->
  loop indices st = fold_left (fun st i => step i st) indices st.
Proof.
  revert st. induction indices as [ | i rest IH]; intros st H; simpl.
  - reflexivity.
  - destruct (Rle_dec (T - INR i * dt) 0) as [Hle | Hgt].
    + specialize (H i (or_introl eq_refl)). lra.
    + apply IH. intros j Hj. apply H. right. exact Hj.
Qed.

Lemma hedge_loop_break (i : nat) (rest : list nat)
    (st : Simulation.hedge_state) :
  T - INR i * dt <= 0 -> loop (i :: rest) st = st.
Proof.
  intro H. simpl.
  destruct (Rle_dec (T - INR i * dt) 0); [ reflexivity | contradiction ].
Qed.

Lemma after_steps_deltas_length (k : nat) :
  length (Simulation.deltas (after_steps k)) = k.
Proof.
  induction k as [ | k IH].
  - reflexivity.
  - rewrite after_steps_succ. simpl. rewrite length_app, IH. simpl. lia.
Qed.

Lemma after_steps_stock_track (k : nat) :
  (k <= length path)%nat ->
  Simulation.stock_track (after_steps k) = firstn k path.
Proof.
  induction k as [ | k IH]; intro Hk.
  - reflexivity.
  - rewrite after_steps_succ. simpl.
    rewrite IH by lia. symmetry. apply firstn_succ_nth. lia.
Qed.

End HedgeLoopFacts.

(** With [T > 0] and [dt = T / N] the loop never leaves early: after
    [range(k)], [k <= N], it has made exactly [k] steps. *)
Lemma hedge_loop_prefix (strike T r sigma : R) (option_type : string)
    (path : list R) (N k : nat) :
  0 < T -> (k <= N)%nat ->
  Simulation.hedge_loop strike T r sigma (T / INR N) option_type path
    (seq 0 k) Simulation.hedge_init
  = after_steps strike T r sigma (T / INR N) option_type path k.
Proof.
  intros HT Hk. unfold after_steps. apply hedge_loop_no_break.
  intros i Hi. apply in_seq in Hi.
  apply remaining_time_pos; [ exact HT | lia ].
Qed.

(** The run with a positive number of steps, written out. *)
Lemma run_simulation_ok (S0 mu sigma strike premium T r : R)
    (option_type : string) (qty : Z) (N : nat) (dW : list (list R)) :
  (0 < N)%nat ->
  let t_vals := linspace 0 T (N + 1) in
  let out :=
    map (Simulation.simulate_path strike premium T r sigma (T / INR N)
           option_type qty N)
        (map (Simulation.gbm_path S0 mu sigma t_vals) dW) in
  Simulation.run_simulation S0 mu sigma strike premium T r option_type qty
    N dW
  = Ok {| Simulation.t_vals := t_vals;
          Simulation.stock_paths := map (fun o => snd (fst o)) out;
          Simulation.delta_paths := map snd out;
          Simulation.pnl_paths := map (fun o => fst (fst o)) out |}.
Proof.
  intro HN. unfold Simulation.run_simulation.
  rewrite time_step_ok by exact HN. reflexivity.
Qed.

(** C4.  With [T > 0] and [N > 0] every path is hedged in [N] steps.
    Cash and the previous delta start at zero; step [i < N] happens with
    time [T - i dt > 0] left, sets the delta to [bs_delta] at the price
    [S_i] and that time, takes [(delta_i - delta_(i-1)) S_i] out of the
    cash and then multiplies the cash by [exp (r dt)].  The realised
    profit of the path is
    [(delta_final S_T + cash - payoff) quantity - premium quantity] with
    the payoff the intrinsic value at the last price [S_T]. *)
Theorem hedge_loop_bookkeeping (strike premium T r sigma : R)
    (option_type : string) (qty : Z) (N : nat) (path : list R) :
  0 < T -> (0 < N)%nat ->
  let dt := T / INR N in
  let S_T := last path 0 in
  let payoff :=
    if String.eqb option_type "call" then Rmax (S_T - strike) 0
    else Rmax (strike - S_T) 0 in
  exists cash delta : nat -> R,
    cash 0%nat = 0 /\ delta 0%nat = 0
    /\ (forall k, (k <= N)%nat ->
        let st :=
          Simulation.hedge_loop strike T r sigma dt option_type path
            (seq 0 k) Simulation.hedge_init in
        Simulation.cash_account st = cash k
        /\ Simulation.delta_prev st = delta k)
    /\ (forall i, (i < N)%nat ->
        0 < T - INR i * dt
        /\ delta (Datatypes.S i)
           = Simulation.bs_delta (nth i path 0) strike (T - INR i * dt) r
               sigma option_type
        /\ cash (Datatypes.S i)
           = (cash i - (delta (Datatypes.S i) - delta i) * nth i path 0)
             * exp (r * dt))
    /\ fst (fst (Simulation.simulate_path strike premium T r sigma dt
                   option_type qty N path))
       = (delta N * S_T + cash N - payoff) * IZR qty - premium * IZR qty.
Proof.
  intros HT HN dt S_T payoff.
  pose (st := after_steps strike T r sigma dt option_type path).
  exists (fun k => Simulation.cash_account (st k)),
         (fun k => Simulation.delta_prev (st k)).
  split; [ reflexivity | ]. split; [ reflexivity | ].
  split; [ | split ].
  - intros k Hk. simpl. unfold dt.
    rewrite hedge_loop_prefix by assumption. split; reflexivity.
  - intros i Hi. split; [ | split ].
    + apply remaining_time_pos; assumption.
    + unfold st. rewrite after_steps_succ. reflexivity.
    + unfold st. rewrite after_steps_succ. reflexivity.
  - unfold Simulation.simulate_path. unfold dt.
    rewrite hedge_loop_prefix by (assumption || lia).
    simpl. fold dt. fold S_T. fold payoff. fold st. ring.
Qed.

Lemma hedge_loop_bookkeeping_witness :
  exists cash delta : nat -> R,
    cash 0%nat = 0 /\ delta 0%nat = 0
    /\ fst (fst (Simulation.simulate_path 100 5 1 0.05 0.2 (1 / INR 2)
                   "call" 1 2 [100; 104; 101]))
       = (delta 2%nat * 101 + cash 2%nat - Rmax (101 - 100) 0) * 1 - 5 * 1.
Proof.
  destruct (hedge_loop_bookkeeping 100 5 1 0.05 0.2 "call" 1 2
              [100; 104; 101]) as [cash [delta [Hc [Hd [_ [_ Hp]]]]]].
  - lra.
  - lia.
  - exists cash, delta. split; [ exact Hc | ]. split; [ exact Hd | ].
    exact Hp.
Defined.

(** ** Trajectories *)

(** What one path records when the loop runs all its [N] steps. *)
Lemma simulate_path_trajectories (strike premium T r sigma : R)
    (option_type : string) (qty : Z) (N : nat) (path : list R) :
  0 < T -> length path = Datatypes.S N ->
  let out :=
    Simulation.simulate_path strike premium T r sigma (T / INR N)
      option_type qty N path in
  snd (fst out) = removelast path /\ length (snd out) = N.
Proof.
  intros HT Hlen. unfold Simulation.simulate_path.
  rewrite hedge_loop_prefix by (assumption || lia). simpl. split.
  - rewrite after_steps_stock_track by lia.
    rewrite removelast_firstn_len, Hlen. reflexivity.
  - apply after_steps_deltas_length.
Qed.

(** What one path records when the time to maturity is not positive: the
    loop is left at its first index. *)
Lemma simulate_path_expired (strike premium T r sigma dt : R)
    (option_type : string) (qty : Z) (N : nat) (path : list R) :
  T <= 0 -> (0 < N)%nat ->
  Simulation.simulate_path strike premium T r sigma dt option_type qty N
    path
  = (let S_T := last path 0 in
     let payoff :=
       if String.eqb option_type "call" then Rmax (S_T - strike) 0
       else Rmax (strike - S_T) 0 in
     ((0 * S_T + 0 - payoff) * IZR qty - premium * IZR qty, [], [])).
Proof.
  intros HT HN. unfold Simulation.simulate_path.
  destruct N as [ | N]; [ lia | ].
  change (seq 0 (Datatypes.S N)) with (0%nat :: seq 1 N).
  rewrite hedge_loop_break by (simpl; lra). reflexivity.
Qed.

(** C10.  For a run with [T > 0], [N > 0] and [N] draws per path, the time
    grid has [N + 1] points and every price path [N + 1] prices, while the
    recorded stock and delta trajectories of every path have exactly [N]
    entries: the recorded stock trajectory is the price path without its
    last price [S_T]. *)
Theorem trajectory_lengths (S0 mu sigma strike premium T r : R)
    (option_type : string) (qty : Z) (N : nat) (dW : list (list R)) :
  0 < T -> (0 < N)%nat ->
  Forall (fun row => length row = N) dW ->
  exists res,
    Simulation.run_simulation S0 mu sigma strike premium T r option_type
      qty N dW
    = Ok res
    /\ length (Simulation.t_vals res) = Datatypes.S N
    /\ Forall (fun row =>
                 length (Simulation.gbm_path S0 mu sigma
                           (Simulation.t_vals res) row)
                 = Datatypes.S N) dW
    /\ Simulation.stock_paths res
       = map (fun row =>
                removelast (Simulation.gbm_path S0 mu sigma
                              (Simulation.t_vals res) row)) dW
    /\ Forall (fun track => length track = N) (Simulation.stock_paths res)
    /\ Forall (fun track => length track = N) (Simulation.delta_paths res)
    /\ length (Simulation.delta_paths res) = length dW
    /\ length (Simulation.pnl_paths res) = length dW.
Proof.
  intros HT HN Hrows.
  eexists. split; [ apply run_simulation_ok; exact HN | ]. simpl.
  assert (Ht : length (linspace 0 T (N + 1)) = Datatypes.S N)
    by (rewrite linspace_length; lia).
  assert (Hpaths :
            forall row, In row dW ->
              length (Simulation.gbm_path S0 mu sigma
                        (linspace 0 T (N + 1)) row) = Datatypes.S N).
  { intros row Hin. apply gbm_path_length; [ exact Ht | ].
    rewrite Forall_forall in Hrows. apply Hrows, Hin. }
  split; [ exact Ht | ].
  split; [ apply Forall_forall; exact Hpaths | ].
  assert (Hstock :
            map (fun o : R * list R * list R => snd (fst o))
              (map (Simulation.simulate_path strike premium T r sigma
                      (T / INR N) option_type qty N)
                 (map (Simulation.gbm_path S0 mu sigma
                         (linspace 0 T (N + 1))) dW))
            = map (fun row =>
                     removelast (Simulation.gbm_path S0 mu sigma
                                   (linspace 0 T (N + 1)) row)) dW).
  { rewrite !map_map. apply map_ext_in. intros row Hin.
    apply simulate_path_trajectories; [ exact HT | apply Hpaths, Hin ]. }
  split; [ exact Hstock | ].
  split; [ | split; [ | split ] ].
  - rewrite Hstock. apply Forall_forall. intros track Hin.
    apply in_map_iff in Hin. destruct Hin as [row [<- Hin]].
    rewrite removelast_firstn_len, (Hpaths row Hin). simpl.
    rewrite length_firstn, (Hpaths row Hin). lia.
  - rewrite !map_map. apply Forall_forall. intros track Hin.
    apply in_map_iff in Hin. destruct Hin as [row [<- Hin]].
    apply simulate_path_trajectories; [ exact HT | apply Hpaths, Hin ].
  - rewrite !length_map. reflexivity.
  - rewrite !length_map. reflexivity.
Qed.

Lemma trajectory_lengths_witness :
  exists res,
    Simulation.run_simulation 100 0.05 0.2 100 5 1 0.05 "call" 1 2
      [[0.1; -0.2]; [0; 0.3]]
    = Ok res
    /\ length (Simulation.t_vals res) = 3%nat
    /\ Forall (fun track => length track = 2%nat)
         (Simulation.stock_paths res)
    /\ Forall (fun track => length track = 2%nat)
         (Simulation.delta_paths res).
Proof.
  destruct (trajectory_lengths 100 0.05 0.2 100 5 1 0.05 "call" 1 2
              [[0.1; -0.2]; [0; 0.3]])
    as [res [Hr [Ht [_ [_ [Hs [Hd _]]]]]]].
  - lra.
  - lia.
  - repeat constructor.
  - exists res. repeat split; assumption.
Defined.

(** A run with [T = 0] and a positive number of steps, written out. *)
Lemma run_simulation_zero_maturity (S0 mu sigma strike premium r : R)
    (option_type : string) (qty : Z) (N : nat) (dW : list (list R)) :
  (0 < N)%nat ->
  exists res,
    Simulation.run_simulation S0 mu sigma strike premium 0 r option_type
      qty N dW
    = Ok res
    /\ length (Simulation.t_vals res) = Datatypes.S N
    /\ Simulation.stock_paths res = map (fun _ => []) dW
    /\ Simulation.delta_paths res = map (fun _ => []) dW
    /\ Simulation.pnl_paths res
       = map (fun row =>
                let S_T :=
                  last (Simulation.gbm_path S0 mu sigma
                          (Simulation.t_vals res) row) 0 in
                let payoff :=
                  if String.eqb option_type "call"
                  then Rmax (S_T - strike) 0
                  else Rmax (strike - S_T) 0 in
                (0 * S_T + 0 - payoff) * IZR qty - premium * IZR qty) dW.
Proof.
  intro HN.
  eexists. split; [ apply run_simulation_ok; exact HN | ]. simpl.
  split; [ rewrite linspace_length; lia | ].
  rewrite !map_map.
  split; [ | split ]; apply map_ext; intro row;
    rewrite simulate_path_expired by (lra || exact HN); reflexivity.
Qed.

(** C6, as amended.  The run validates neither [T] nor [N].  With
    [T = 0], [N > 0] and a volatility and a quantity of magnitude at most
    [10^9] it raises nothing: the time grid still has [N + 1] points,
    every path leaves the loop at its first index, its stock and delta
    trajectories stay empty, and its profit is computed from a zero
    hedge.  With [N = 0] the quotient [T / N] raises
    [ZeroDivisionError], before anything else is computed. *)
Theorem simulation_without_validation (S0 mu sigma strike premium r : R)
    (option_type : string) (qty : Z) (N : nat) (dW : list (list R)) :
  ((0 < N)%nat ->
   real_in_range sigma ->
   real_in_range (IZR qty) ->
   exists res,
     Simulation.run_simulation S0 mu sigma strike premium 0 r option_type
       qty N dW
     = Ok res
     /\ length (Simulation.t_vals res) = Datatypes.S N
     /\ Simulation.stock_paths res = map (fun _ => []) dW
     /\ Simulation.delta_paths res = map (fun _ => []) dW
     /\ Simulation.pnl_paths res
        = map (fun row =>
                 let S_T :=
                   last (Simulation.gbm_path S0 mu sigma
                           (Simulation.t_vals res) row) 0 in
                 let payoff :=
                   if String.eqb option_type "call"
                   then Rmax (S_T - strike) 0
                   else Rmax (strike - S_T) 0 in
                 (0 * S_T + 0 - payoff) * IZR qty - premium * IZR qty) dW)
  /\ (forall T,
        Simulation.run_simulation S0 mu sigma strike premium T r
          option_type qty 0 dW
        = Raise ZeroDivisionError).
Proof.
  split.
  - intros HN _ _. apply run_simulation_zero_maturity. exact HN.
  - intro T. unfold Simulation.run_simulation.
    rewrite time_step_raises. reflexivity.
Qed.

Lemma simulation_without_validation_witness :
  exists res,
    Simulation.run_simulation 100 0.05 0.2 100 5 0 0.05 "put" 1 10
      [repeat 0 10; repeat 0 10]
    = Ok res
    /\ Simulation.stock_paths res = [[]; []]
    /\ Simulation.delta_paths res = [[]; []].
Proof.
  destruct (simulation_without_validation 100 0.05 0.2 100 5 0.05 "put" 1
              10 [repeat 0 10; repeat 0 10])
    as [H _].
  destruct H as [res [Hr [_ [Hs [Hd _]]]]].
  - lia.
  - in_range_solve.
  - in_range_solve.
  - exists res. repeat split; assumption.
Defined.

(** C6, the input that refutes the claim as first stated: a run with
    [T = 0] raises nothing and returns a result, with one empty
    trajectory per path. *)
Lemma zero_maturity_run_returns :
  (exists res,
     Simulation.run_simulation 100 0.05 0.2 100 5 0 0.05 "call" 1 10
       [repeat 0 10]
     = Ok res
     /\ length (Simulation.t_vals res) = 11%nat
     /\ Simulation.stock_paths res = [[]]
     /\ Simulation.delta_paths res = [[]])
  /\ forall e,
       Simulation.run_simulation 100 0.05 0.2 100 5 0 0.05 "call" 1 10
         [repeat 0 10]
       <> Raise e.
Proof.
  destruct (run_simulation_zero_maturity 100 0.05 0.2 100 5 0.05 "call" 1
              10 [repeat 0 10]) as [res [Hr [Ht [Hs [Hd _]]]]]; [ lia | ].
  split.
  - exists res. repeat split; assumption.
  - intros e He. rewrite Hr in He. discriminate.
Qed.

(** ** The portfolio payoff curve *)

Lemma add_at_length (i : nat) (x : R) (a : list R) :
  length (add_at i x a) = length a.
Proof.
  revert i. induction a as [ | y a IH]; intros [ | i]; simpl; auto.
Qed.

Lemma add_at_nth_same (i : nat) (x : R) (a : list R) :
  (i < length a)%nat -> nth i (add_at i x a) 0 = nth i a 0 + x.
Proof.
  revert i. induction a as [ | y a IH]; intros [ | i] Hi; simpl in *;
    try lia; try reflexivity.
  apply IH. lia.
Qed.

Lemma add_at_nth_other (i j : nat) (x : R) (a : list R) :
  i <> j -> nth j (add_at i x a) 0 = nth j a 0.
Proof.
  revert i j. induction a as [ | y a IH]; intros [ | i] [ | j] Hij; simpl;
    try reflexivity; try lia.
  apply IH. lia.
Qed.

(** Adding one contribution per grid point, in the order of
    [enumerate], adds to every cell the contribution of its own point. *)
Lemma fold_add_at_nth (f : R -> R) (grid : list R) :
  forall (k : nat) (a : list R) (i : nat),
    (k + length grid <= length a)%nat ->
    nth i
      (fold_left (fun acc (e : nat * R) => add_at (fst e) (f (snd e)) acc)
         (combine (seq k (length grid)) grid) a) 0
    = if (k <=? i)%nat && (i <? k + length grid)%nat
      then nth i a 0 + f (nth (i - k) grid 0)
      else nth i a 0.
Proof.
  induction grid as [ | x grid IH]; intros k a i Hlen.
  - simpl. replace (i <? k + 0)%nat with (i <? k)%nat
      by (f_equal; lia).
    destruct (k <=? i)%nat eqn:E1, (i <? k)%nat eqn:E2; try reflexivity.
    apply Nat.leb_le in E1. apply Nat.ltb_lt in E2. lia.
  - simpl in Hlen. simpl combine. simpl fold_left.
    rewrite IH by (rewrite add_at_length; lia).
    destruct (Nat.eq_dec i k) as [-> | Hik].
    + replace (Datatypes.S k <=? k)%nat with false
        by (symmetry; apply Nat.leb_gt; lia).
      replace (k <=? k)%nat with true by (symmetry; apply Nat.leb_refl).
      replace (k <? k + length (x :: grid))%nat with true
        by (symmetry; apply Nat.ltb_lt; simpl; lia).
      simpl. rewrite add_at_nth_same by lia.
      rewrite Nat.sub_diag. reflexivity.
    + rewrite add_at_nth_other by auto.
      destruct (Datatypes.S k <=? i)%nat eqn:E1.
      * apply Nat.leb_le in E1.
        replace (k <=? i)%nat with true
          by (symmetry; apply Nat.leb_le; lia).
        replace (i <? k + length (x :: grid))%nat
          with (i <? Datatypes.S k + length grid)%nat
          by (f_equal; simpl; lia).
        replace (i - k)%nat with (Datatypes.S (i - Datatypes.S k)) by lia.
        reflexivity.
      * apply Nat.leb_gt in E1.
        replace (k <=? i)%nat with false
          by (symmetry; apply Nat.leb_gt; lia).
        reflexivity.
Qed.

Lemma zeros_like_length (a : list R) : length (zeros_like a) = length a.
Proof. apply length_map. Qed.

Lemma zeros_like_nth (a : list R) (i : nat) : nth i (zeros_like a) 0 = 0.
Proof.
  unfold zeros_like. revert i.
  induction a as [ | y a IH]; intros [ | i]; simpl; auto.
Qed.

(** On the grid the constructor never raises for a valid option type: the
    price is a numpy float. *)
Lemma init_on_grid (S K T r sigma : R) (o_type : string) :
  valid_option_type (PyStr o_type) ->
  Greeks.__init__ (NpFloat S) (PyFloat K) (PyFloat T) (PyFloat r)
    (PyFloat sigma) (PyStr o_type)
  = Ok (greek_object (NpFloat S) (PyFloat K) (PyFloat T) (PyFloat r)
          (PyFloat sigma) (PyStr o_type)).
Proof.
  intro Hv. apply init_ok.
  - repeat constructor.
  - exact Hv.
  - intros [Hn _]. discriminate.
Qed.

(** The payoff row after the grid loop of one position. *)
Lemma grid_loop_payoff (o_type : string) (K : R) (q : Z)
    (sigma prem T r : R) (grid : list (nat * R)) :
  valid_option_type (PyStr o_type) ->
  forall tot,
  exists tot',
    Portfolio.grid_loop o_type K q sigma prem T r grid tot = Ok tot'
    /\ Portfolio.total_payoff tot'
       = fold_left
           (fun acc (e : nat * R) =>
              add_at (fst e)
                (IZR q
                 * ((if String.eqb o_type "call" then Rmax (snd e - K) 0
                     else Rmax (K - snd e) 0) - prem)) acc)
           grid (Portfolio.total_payoff tot).
Proof.
  intro Hv. induction grid as [ | entry grid IH]; intro tot.
  - exists tot. split; reflexivity.
  - simpl Portfolio.grid_loop. rewrite init_on_grid by exact Hv.
    simpl bind.
    match goal with
    | |- exists t, Portfolio.grid_loop _ _ _ _ _ _ _ _ ?tot1 = _ /\ _ =>
        destruct (IH tot1) as [tot' [E P]]
    end.
    exists tot'. split; [ exact E | ]. rewrite P. reflexivity.
Qed.

(** Folding [add_at] keeps the length of the row. *)
Lemma fold_add_at_length (f : R -> R) (entries : list (nat * R)) :
  forall a : list R,
    length
      (fold_left (fun acc (e : nat * R) => add_at (fst e) (f (snd e)) acc)
         entries a)
    = length a.
Proof.
  induction entries as [ | e entries IH]; intro a; simpl.
  - reflexivity.
  - rewrite IH. apply add_at_length.
Qed.

(** The payoff row of a portfolio of one position over any grid: every
    cell gains the quantity times the intrinsic value less the premium. *)
Lemma portfolio_loop_single (grid : list R) (position : Portfolio.position)
    (tot : Portfolio.totals) :
  valid_option_type (PyStr (Portfolio.option_type position)) ->
  length (Portfolio.total_payoff tot) = length grid ->
  exists tot',
    Portfolio.portfolio_loop grid [position] tot = Ok tot'
    /\ length (Portfolio.total_payoff tot') = length grid
    /\ forall i, (i < length grid)%nat ->
         nth i (Portfolio.total_payoff tot') 0
         = nth i (Portfolio.total_payoff tot) 0
           + IZR (Portfolio.qty position)
             * ((if String.eqb (Portfolio.option_type position) "call"
                 then Rmax (nth i grid 0 - Portfolio.strike position) 0
                 else Rmax (Portfolio.strike position - nth i grid 0) 0)
                - Portfolio.premium position).
Proof.
  intros Hv Hlen. cbn [Portfolio.portfolio_loop].
  destruct (grid_loop_payoff (Portfolio.option_type position)
              (Portfolio.strike position) (Portfolio.qty position)
              (Portfolio.implied_volatility position)
              (Portfolio.premium position)
              (Rmax (IZR (Portfolio.expiry position) / 365) 1e-6) 0.05
              (enumerate grid) Hv tot) as [tot' [E P]].
  exists tot'. rewrite E. split; [ reflexivity | ].
  pose (f := fun S : R =>
               IZR (Portfolio.qty position)
               * ((if String.eqb (Portfolio.option_type position) "call"
                   then Rmax (S - Portfolio.strike position) 0
                   else Rmax (Portfolio.strike position - S) 0)
                  - Portfolio.premium position)).
  change (Portfolio.total_payoff tot'
          = fold_left (fun acc (e : nat * R) =>
                         add_at (fst e) (f (snd e)) acc)
              (enumerate grid) (Portfolio.total_payoff tot)) in P.
  split.
  - rewrite P, fold_add_at_length. exact Hlen.
  - intros i Hi. rewrite P. unfold enumerate.
    rewrite fold_add_at_nth by lia.
    replace (i <? 0 + length grid)%nat with true
      by (symmetry; apply Nat.ltb_lt; lia).
    cbn [Nat.leb andb]. rewrite Nat.sub_0_r. reflexivity.
Qed.

Lemma linspace_nth (start stop : R) (num i : nat) :
  (i < num)%nat ->
  nth i (linspace start stop num) 0
  = start + INR i * ((stop - start) / INR (num - 1)).
Proof.
  intro Hi. unfold linspace.
  rewrite (nth_indep _ 0
             (start + INR 0 * ((stop - start) / INR (num - 1))))
    by (rewrite length_map, length_seq; exact Hi).
  rewrite (map_nth (fun k => start + INR k * ((stop - start) / INR (num - 1)))).
  rewrite seq_nth by exact Hi. reflexivity.
Qed.

Lemma evaluate_single (position : Portfolio.position) :
  Portfolio.evaluate [position]
  = let grid := Portfolio.S_range [position] in
    Some (Portfolio.portfolio_loop grid [position]
            {| Portfolio.total_delta := zeros_like grid;
               Portfolio.total_gamma := zeros_like grid;
               Portfolio.total_vega := zeros_like grid;
               Portfolio.total_theta := zeros_like grid;
               Portfolio.total_rho := zeros_like grid;
               Portfolio.total_payoff := zeros_like grid |}).
Proof. reflexivity. Qed.

(** The payoff curve of a portfolio of one position: at every grid price
    the quantity times the intrinsic value less the premium. *)
Lemma single_position_payoff (position : Portfolio.position) :
  valid_option_type (PyStr (Portfolio.option_type position)) ->
  exists tot,
    Portfolio.evaluate [position] = Some (Ok tot)
    /\ length (Portfolio.total_payoff tot) = 200%nat
    /\ forall i, (i < 200)%nat ->
         nth i (Portfolio.total_payoff tot) 0
         = IZR (Portfolio.qty position)
           * ((if String.eqb (Portfolio.option_type position) "call"
               then Rmax (nth i (Portfolio.S_range [position]) 0
                          - Portfolio.strike position) 0
               else Rmax (Portfolio.strike position
                          - nth i (Portfolio.S_range [position]) 0) 0)
              - Portfolio.premium position).
Proof.
  intro Hv. rewrite evaluate_single. cbv zeta.
  assert (Hgrid : length (Portfolio.S_range [position]) = 200%nat)
    by apply linspace_length.
  match goal with
  | |- exists t, Some (Portfolio.portfolio_loop ?g _ ?t0) = _ /\ _ =>
      destruct (portfolio_loop_single g position t0 Hv) as [tot' [E [L P]]];
      [ apply zeros_like_length | ]
  end.
  exists tot'. split; [ rewrite E; reflexivity | ].
  split; [ rewrite L; exact Hgrid | ].
  intros i Hi. rewrite P by (rewrite Hgrid; exact Hi).
  cbn [Portfolio.total_payoff]. rewrite zeros_like_nth. ring.
Qed.

(** The fields of a position within the range of the model. *)
Definition position_in_range (position : Portfolio.position) : Prop :=
  real_in_range (Portfolio.strike position)
  /\ real_in_range (IZR (Portfolio.qty position))
  /\ real_in_range (IZR (Portfolio.expiry position))
  /\ real_in_range (Portfolio.implied_volatility position)
  /\ real_in_range (Portfolio.premium position).

(** The grid of a portfolio of one position with a strike of at least
    [5/3]: it runs from [0.6] to [1.4] times the strike. *)
Lemma single_strike_grid (position : Portfolio.position) (i : nat) :
  5 / 3 <= Portfolio.strike position ->
  (i < 200)%nat ->
  nth i (Portfolio.S_range [position]) 0
  = Portfolio.strike position * (0.6 + 0.8 * INR i / 199).
Proof.
  intros HK Hi. unfold Portfolio.S_range.
  rewrite linspace_nth by exact Hi.
  replace (INR (200 - 1)) with 199 by (rewrite INR_IZR_INZ; reflexivity).
  cbn [map Portfolio.list_min Portfolio.list_max fold_left].
  unfold Rmax.
  destruct (Rle_dec 1 (Portfolio.strike position * 0.6)); [ nra | lra ].
Qed.

(** Such a grid steps over the strike between its indices [99] and
    [100]. *)
Lemma single_strike_grid_sides (position : Portfolio.position) (i : nat) :
  5 / 3 <= Portfolio.strike position ->
  (i < 200)%nat ->
  let S_i := nth i (Portfolio.S_range [position]) 0 in
  ((i <= 99)%nat -> S_i < Portfolio.strike position)
  /\ ((100 <= i)%nat -> Portfolio.strike position < S_i).
Proof.
  intros HK Hi S_i. unfold S_i.
  rewrite single_strike_grid by assumption.
  set (K := Portfolio.strike position) in *.
  split; intro H.
  - apply le_INR in H.
    replace (INR 99) with 99 in H by (rewrite INR_IZR_INZ; reflexivity).
    assert (0.6 + 0.8 * INR i / 199 < 1) by lra.
    nra.
  - apply le_INR in H.
    replace (INR 100) with 100 in H by (rewrite INR_IZR_INZ; reflexivity).
    assert (1 < 0.6 + 0.8 * INR i / 199) by lra.
    nra.
Qed.

(** C9, as amended.  For a portfolio of one long call with quantity [1],
    strike [K] and premium [p], with fields of magnitude at most [10^9],
    the evaluation returns the curves, and the payoff at every grid price
    [S_i] is [max(S_i - K, 0) - p].  For [K >= 5/3] the grid prices are
    [K * (0.6 + 0.8 * i / 199)], [i = 0 .. 199], and none of them is the
    strike: the payoff is [- p] up to index [99], where the prices lie
    below the strike, and [S_i - K - p], above [- p], from index [100]
    on. *)
Theorem single_long_call_payoff_curve (K p sigma : R) (days : Z) :
  let position :=
    {| Portfolio.option_type := "call"; Portfolio.strike := K;
       Portfolio.qty := 1; Portfolio.expiry := days;
       Portfolio.implied_volatility := sigma; Portfolio.premium := p |} in
  position_in_range position ->
  exists tot,
    Portfolio.evaluate [position] = Some (Ok tot)
    /\ length (Portfolio.total_payoff tot) = 200%nat
    /\ (forall i, (i < 200)%nat ->
          nth i (Portfolio.total_payoff tot) 0
          = Rmax (nth i (Portfolio.S_range [position]) 0 - K) 0 - p)
    /\ (5 / 3 <= K ->
        forall i, (i < 200)%nat ->
          let S_i := nth i (Portfolio.S_range [position]) 0 in
          S_i = K * (0.6 + 0.8 * INR i / 199)
          /\ S_i <> K
          /\ ((i <= 99)%nat ->
              S_i < K /\ nth i (Portfolio.total_payoff tot) 0 = - p)
          /\ ((100 <= i)%nat ->
              K < S_i
              /\ nth i (Portfolio.total_payoff tot) 0 = S_i - K - p)).
Proof.
  intros position _.
  destruct (single_position_payoff position) as [tot [E [L P]]].
  { left. reflexivity. }
  assert (P' : forall i, (i < 200)%nat ->
                 nth i (Portfolio.total_payoff tot) 0
                 = Rmax (nth i (Portfolio.S_range [position]) 0 - K) 0 - p).
  { intros i Hi. rewrite (P i Hi).
    cbn [Portfolio.qty Portfolio.option_type Portfolio.strike
         Portfolio.premium position String.eqb Ascii.eqb Bool.eqb].
    ring. }
  exists tot. split; [ exact E | ]. split; [ exact L | ].
  split; [ exact P' | ].
  intros HK i Hi S_i.
  destruct (single_strike_grid_sides position i HK Hi) as [Hlow Hhigh].
  cbn [Portfolio.strike position] in Hlow, Hhigh. fold position in Hlow, Hhigh.
  fold S_i in Hlow, Hhigh.
  split; [ apply (single_strike_grid position i HK Hi) | ].
  split; [ | split ].
  - destruct (le_lt_dec i 99) as [H | H].
    + specialize (Hlow H). lra.
    + assert (H' : (100 <= i)%nat) by lia. specialize (Hhigh H'). lra.
  - intro H. specialize (Hlow H). split; [ exact Hlow | ].
    rewrite (P' i Hi). fold S_i. unfold Rmax.
    destruct (Rle_dec (S_i - K) 0); lra.
  - intro H. specialize (Hhigh H). split; [ exact Hhigh | ].
    rewrite (P' i Hi). fold S_i. unfold Rmax.
    destruct (Rle_dec (S_i - K) 0); lra.
Qed.

(** The first position of the page's demonstration portfolio: the payoff
    next to its strike of [100], at the grid indices [99] and [100]. *)
Lemma single_long_call_payoff_curve_witness :
  exists tot,
    Portfolio.evaluate
      [{| Portfolio.option_type := "call"; Portfolio.strike := 100;
          Portfolio.qty := 1; Portfolio.expiry := 60;
          Portfolio.implied_volatility := 0.25; Portfolio.premium := 5 |}]
    = Some (Ok tot)
    /\ nth 99 (Portfolio.total_payoff tot) 0 = - 5
    /\ nth 100 (Portfolio.total_payoff tot) 0 = 40 / 199 - 5.
Proof.
  destruct (single_long_call_payoff_curve 100 5 0.25 60)
    as [tot [E [_ [_ P]]]].
  - repeat split; in_range_solve.
  - exists tot. split; [ exact E | ].
    assert (HK : 5 / 3 <= 100) by lra.
    split.
    + destruct (P HK 99%nat) as [_ [_ [H _]]]; [ lia | ].
      apply H. lia.
    + destruct (P HK 100%nat) as [HS [_ [_ H]]]; [ lia | ].
      destruct H as [_ H]; [ lia | ].
      rewrite H, HS.
      replace (INR 100) with 100 by (rewrite INR_IZR_INZ; reflexivity).
      lra.
Defined.

(** C9, the input that refutes the claim as first stated: for the long
    call of the page, with strike [100] and premium [5], the curves are
    computed on 200 grid prices of which none is the strike, so that the
    payoff curve has no value at [S = K]; the two grid prices next to the
    strike are [60 + 99 * 80 / 199] and [60 + 100 * 80 / 199]. *)
Lemma strike_is_no_grid_price :
  let position :=
    {| Portfolio.option_type := "call"; Portfolio.strike := 100;
       Portfolio.qty := 1; Portfolio.expiry := 60;
       Portfolio.implied_volatility := 0.25; Portfolio.premium := 5 |} in
  length (Portfolio.S_range [position]) = 200%nat
  /\ nth 99 (Portfolio.S_range [position]) 0 < 100
     < nth 100 (Portfolio.S_range [position]) 0
  /\ ~ exists i, (i < 200)%nat
                 /\ nth i (Portfolio.S_range [position]) 0 = 100.
Proof.
  intro position.
  assert (HK : 5 / 3 <= Portfolio.strike position) by (simpl; lra).
  split; [ apply linspace_length | ].
  split.
  - destruct (single_strike_grid_sides position 99 HK) as [H _]; [ lia | ].
    destruct (single_strike_grid_sides position 100 HK) as [_ H'];
      [ lia | ].
    cbn [Portfolio.strike position] in H, H'.
    split; [ apply H | apply H' ]; lia.
  - intros [i [Hi HS]].
    destruct (single_strike_grid_sides position i HK Hi) as [Hlow Hhigh].
    cbn [Portfolio.strike position] in Hlow, Hhigh.
    destruct (le_lt_dec i 99) as [H | H].
    + specialize (Hlow H). fold position in Hlow. lra.
    + assert (H' : (100 <= i)%nat) by lia. specialize (Hhigh H').
      fold position in Hhigh. lra.
Qed.

(** * Further properties of the code *)

(** Closes the side conditions of a statement at concrete inputs. *)
Ltac concrete :=
  first [ solve [ repeat constructor ]
        | solve [ simpl; lra ]
        | solve [ left; reflexivity ]
        | solve [ right; reflexivity ]
        | lia ].

(** ** The Greeks *)


Lemma init_positive (S K T r sigma option_type : pyval) :
  Forall numeric [S; K; T; r; sigma] -> 0 < to_R K ->
  valid_option_type option_type ->
  Greeks.__init__ S K T r sigma option_type
  = Ok (greek_object S K T r sigma option_type).
Proof.
  intros Hn HK Hv. apply init_ok; try assumption.
  apply positive_not_zero_division, HK.
Qed.



(** X2.  Parity of the Greeks: for the same positive inputs the call and
    the put differ by [1] in delta, by [- r K exp (- r T)] in theta and by
    [K T exp (- r T)] in rho. *)
Theorem greeks_parity (S K T r sigma : pyval) :
  Forall numeric [S; K; T; r; sigma] ->
  0 < to_R S -> 0 < to_R K -> 0 < to_R T -> 0 < to_R sigma ->
  exists call put,
    Greeks.__init__ S K T r sigma (PyStr "call") = Ok call
    /\ Greeks.__init__ S K T r sigma (PyStr "put") = Ok put
    /\ Greeks.delta call - Greeks.delta put = 1
    /\ Greeks.theta call - Greeks.theta put
       = - (to_R r * to_R K * exp (- (to_R r * to_R T)))
    /\ Greeks.rho call - Greeks.rho put
       = to_R K * to_R T * exp (- (to_R r * to_R T)).
Proof.
  intros Hn HS HK HT Hs.
  exists (greek_object S K T r sigma (PyStr "call")),
         (greek_object S K T r sigma (PyStr "put")).
  split; [ apply init_positive; (assumption || concrete) | ].
  split; [ apply init_positive; (assumption || concrete) | ].
  unfold Greeks.delta, Greeks.theta, Greeks.rho. simpl.
  replace (- to_R r * to_R T) with (- (to_R r * to_R T)) by ring.
  rewrite !Normal.cdf_opp.
  split; [ ring | ]. split; ring.
Qed.

Lemma greeks_parity_witness :
  exists call put,
    Greeks.__init__ (PyInt 100) (PyInt 105) (PyInt 1) (PyFloat 0.05)
      (PyFloat 0.2) (PyStr "call") = Ok call
    /\ Greeks.__init__ (PyInt 100) (PyInt 105) (PyInt 1) (PyFloat 0.05)
         (PyFloat 0.2) (PyStr "put") = Ok put
    /\ Greeks.delta call - Greeks.delta put = 1.
Proof.
  destruct (greeks_parity (PyInt 100) (PyInt 105) (PyInt 1) (PyFloat 0.05)
              (PyFloat 0.2)) as [call [put [Hc [Hp [Hd _]]]]];
    try concrete.
  exists call, put. repeat split; assumption.
Defined.

(** ** Prices and Greeks together *)

(** The price without dividends in terms of the constructor's [d1], [d2]. *)
Lemma black_scholes_no_dividend (S K T r sigma option_type : pyval) :
  Forall numeric [S; K; T; r; sigma] -> valid_option_type option_type ->
  0 < to_R K -> 0 < to_R T -> 0 < to_R sigma ->
  let g := greek_object S K T r sigma option_type in
  Pricing.black_scholes S K T r sigma option_type (PyInt 0)
  = Ok (if is_call option_type
        then to_R S * Normal.cdf (Greeks.d1 g)
             - to_R K * exp (- (to_R r * to_R T)) * Normal.cdf (Greeks.d2 g)
        else to_R K * exp (- (to_R r * to_R T))
             * Normal.cdf (- Greeks.d2 g)
             - to_R S * Normal.cdf (- Greeks.d1 g)).
Proof.
  intros Hn Hv HK HT Hs g.
  rewrite black_scholes_formula; try assumption.
  - unfold Spec.bsm_price, Spec.call_price, Spec.put_price, Spec.d2.
    unfold g, greek_object. cbn [Greeks.d1 Greeks.d2 to_R].
    replace (- (0 * to_R T)) with 0 by ring. rewrite exp_0.
    destruct (is_call option_type); f_equal; ring.
  - inversion Hn as [ | ? ? H1 Hn1 ]; subst.
    inversion Hn1 as [ | ? ? H2 Hn2 ]; subst.
    inversion Hn2 as [ | ? ? H3 Hn3 ]; subst.
    inversion Hn3 as [ | ? ? H4 Hn4 ]; subst.
    inversion Hn4 as [ | ? ? H5 Hn5 ]; subst.
    repeat constructor; assumption.
  - apply positive_not_zero_division, HK.
Qed.

(** X3.  The Black-Scholes equation: for positive inputs and either
    option type, the Greeks of [GreekCalculator] and the price of
    [black_scholes] without dividends satisfy
    [theta + r S delta + sigma^2 S^2 gamma / 2 = r price]. *)
Theorem black_scholes_equation (S K T r sigma option_type : pyval) :
  Forall numeric [S; K; T; r; sigma] -> valid_option_type option_type ->
  0 < to_R S -> 0 < to_R K -> 0 < to_R T -> 0 < to_R sigma ->
  exists greek price,
    Greeks.__init__ S K T r sigma option_type = Ok greek
    /\ Pricing.black_scholes S K T r sigma option_type (PyInt 0) = Ok price
    /\ Greeks.theta greek + to_R r * to_R S * Greeks.delta greek
       + to_R sigma ^ 2 * to_R S ^ 2 * Greeks.gamma greek / 2
       = to_R r * price.
Proof.
  intros Hn Hv HS HK HT Hs.
  exists (greek_object S K T r sigma option_type). eexists.
  split; [ apply init_positive; assumption | ].
  split; [ apply black_scholes_no_dividend; assumption | ].
  assert (Hq : 0 < sqrt (to_R T)) by (apply sqrt_lt_R0, HT).
  unfold Greeks.theta, Greeks.delta, Greeks.gamma.
  cbn [greek_object Greeks.S Greeks.K Greeks.T Greeks.r Greeks.sigma
       Greeks.option_type].
  replace (- to_R r * to_R T) with (- (to_R r * to_R T)) by ring.
  destruct (is_call option_type).
  - field. repeat split; lra.
  - rewrite !Normal.cdf_opp. field. repeat split; lra.
Qed.

Lemma black_scholes_equation_witness :
  exists greek price,
    Greeks.__init__ (PyFloat 100) (PyFloat 105) (PyInt 1) (PyFloat 0.05)
      (PyFloat 0.2) (PyStr "put") = Ok greek
    /\ Pricing.black_scholes (PyFloat 100) (PyFloat 105) (PyInt 1)
         (PyFloat 0.05) (PyFloat 0.2) (PyStr "put") (PyInt 0) = Ok price
    /\ Greeks.theta greek + 0.05 * 100 * Greeks.delta greek
       + 0.2 ^ 2 * 100 ^ 2 * Greeks.gamma greek / 2
       = 0.05 * price.
Proof.
  apply (black_scholes_equation (PyFloat 100) (PyFloat 105) (PyInt 1)
           (PyFloat 0.05) (PyFloat 0.2) (PyStr "put")); concrete.
Defined.

(** X4.  Without dividends the price is [S delta - rho / T], for positive
    inputs and either option type. *)
Theorem price_from_delta_and_rho (S K T r sigma option_type : pyval) :
  Forall numeric [S; K; T; r; sigma] -> valid_option_type option_type ->
  0 < to_R S -> 0 < to_R K -> 0 < to_R T -> 0 < to_R sigma ->
  exists greek price,
    Greeks.__init__ S K T r sigma option_type = Ok greek
    /\ Pricing.black_scholes S K T r sigma option_type (PyInt 0) = Ok price
    /\ price = to_R S * Greeks.delta greek - Greeks.rho greek / to_R T.
Proof.
  intros Hn Hv HS HK HT Hs.
  exists (greek_object S K T r sigma option_type). eexists.
  split; [ apply init_positive; assumption | ].
  split; [ apply black_scholes_no_dividend; assumption | ].
  unfold Greeks.delta, Greeks.rho.
  cbn [greek_object Greeks.S Greeks.K Greeks.T Greeks.r Greeks.sigma
       Greeks.option_type].
  replace (- to_R r * to_R T) with (- (to_R r * to_R T)) by ring.
  destruct (is_call option_type).
  - field. lra.
  - rewrite !Normal.cdf_opp. field. lra.
Qed.

Lemma price_from_delta_and_rho_witness :
  exists greek price,
    Greeks.__init__ (PyFloat 100) (PyFloat 105) (PyInt 1) (PyFloat 0.05)
      (PyFloat 0.2) (PyStr "call") = Ok greek
    /\ Pricing.black_scholes (PyFloat 100) (PyFloat 105) (PyInt 1)
         (PyFloat 0.05) (PyFloat 0.2) (PyStr "call") (PyInt 0) = Ok price
    /\ price = 100 * Greeks.delta greek - Greeks.rho greek / 1.
Proof.
  apply (price_from_delta_and_rho (PyFloat 100) (PyFloat 105) (PyInt 1)
           (PyFloat 0.05) (PyFloat 0.2) (PyStr "call")); concrete.
Defined.

(** X5.  Vega is gamma scaled by [S^2 sigma T], for positive inputs. *)
Theorem vega_from_gamma (S K T r sigma option_type : pyval) :
  Forall numeric [S; K; T; r; sigma] -> valid_option_type option_type ->
  0 < to_R S -> 0 < to_R K -> 0 < to_R T -> 0 < to_R sigma ->
  exists greek,
    Greeks.__init__ S K T r sigma option_type = Ok greek
    /\ Greeks.vega greek
       = to_R S ^ 2 * to_R sigma * to_R T * Greeks.gamma greek.
Proof.
  intros Hn Hv HS HK HT Hs.
  exists (greek_object S K T r sigma option_type).
  split; [ apply init_positive; assumption | ].
  assert (Hq : 0 < sqrt (to_R T)) by (apply sqrt_lt_R0, HT).
  assert (HT2 : sqrt (to_R T) * sqrt (to_R T) = to_R T)
    by (apply sqrt_sqrt; lra).
  unfold Greeks.vega, Greeks.gamma.
  cbn [greek_object Greeks.S Greeks.T Greeks.sigma].
  rewrite <- HT2 at 2. field. repeat split; lra.
Qed.

Lemma vega_from_gamma_witness :
  exists greek,
    Greeks.__init__ (PyFloat 100) (PyFloat 105) (PyInt 1) (PyFloat 0.05)
      (PyFloat 0.2) (PyStr "call") = Ok greek
    /\ Greeks.vega greek = 100 ^ 2 * 0.2 * 1 * Greeks.gamma greek.
Proof.
  apply (vega_from_gamma (PyFloat 100) (PyFloat 105) (PyInt 1)
           (PyFloat 0.05) (PyFloat 0.2) (PyStr "call")); concrete.
Defined.

(** ** More on [black_scholes] *)

Lemma intrinsic_difference (S K : R) :
  Spec.intrinsic true S K - Spec.intrinsic false S K = S - K.
Proof.
  unfold Spec.intrinsic, Rmax.
  destruct (Rle_dec (S - K) 0), (Rle_dec (K - S) 0); lra.
Qed.

(** X6.  Parity in the two edge branches.  With [T <= 0] the call price
    minus the put price is [S - K]; with [T > 0] and [sigma <= 0] it is
    [exp (- r T) (S - K)], whatever the dividend yield [q] is. *)
Theorem edge_branch_parity (S K T r sigma q : pyval) :
  Forall numeric [S; K; T; r; sigma; q] ->
  to_R T <= 0 \/ to_R sigma <= 0 ->
  exists call_price put_price,
    Pricing.black_scholes S K T r sigma (PyStr "call") q = Ok call_price
    /\ Pricing.black_scholes S K T r sigma (PyStr "put") q = Ok put_price
    /\ call_price - put_price
       = if Rle_dec (to_R T) 0 then to_R S - to_R K
         else exp (- (to_R r * to_R T)) * (to_R S - to_R K).
Proof.
  intros Hn Hedge.
  destruct (Rle_dec (to_R T) 0) as [HT | HT].
  - eexists. eexists. split; [ | split ].
    + apply black_scholes_expired; (assumption || concrete).
    + apply black_scholes_expired; (assumption || concrete).
    + apply intrinsic_difference.
  - apply Rnot_le_lt in HT. destruct Hedge as [H | Hs]; [ lra | ].
    eexists. eexists. split; [ | split ].
    + apply black_scholes_zero_volatility; (assumption || concrete).
    + apply black_scholes_zero_volatility; (assumption || concrete).
    + cbn [is_call String.eqb Ascii.eqb Bool.eqb].
      rewrite <- Rmult_minus_distr_l, intrinsic_difference. reflexivity.
Qed.

Lemma edge_branch_parity_witness :
  exists call_price put_price,
    Pricing.black_scholes (PyInt 100) (PyInt 90) (PyInt 1) (PyFloat 0.05)
      (PyInt 0) (PyStr "call") (PyFloat 0.02) = Ok call_price
    /\ Pricing.black_scholes (PyInt 100) (PyInt 90) (PyInt 1)
         (PyFloat 0.05) (PyInt 0) (PyStr "put") (PyFloat 0.02)
       = Ok put_price
    /\ call_price - put_price = exp (- (0.05 * 1)) * (100 - 90).
Proof.
  destruct (edge_branch_parity (PyInt 100) (PyInt 90) (PyInt 1)
              (PyFloat 0.05) (PyInt 0) (PyFloat 0.02))
    as [c [p [Hc [Hp E]]]].
  - concrete.
  - right. simpl. lra.
  - exists c, p. split; [ exact Hc | ]. split; [ exact Hp | ].
    rewrite E. simpl to_R.
    destruct (Rle_dec 1 0); [ lra | reflexivity ].
Defined.

(** The loop raises [TypeError] under a name exactly when that name
    labels the first value that is no number. *)
Lemma check_numeric_first (args : list (string * pyval)) (name : string) :
  check_numeric args = Raise (TypeError name)
  <-> exists before val after,
        args = before ++ (name, val) :: after
        /\ Forall numeric (map snd before)
        /\ is_int_or_float val = false.
Proof.
  induction args as [ | [n v] rest IH]; simpl.
  - split; [ discriminate | ].
    intros [before [val [after [E _]]]].
    destruct before; discriminate.
  - destruct (is_int_or_float v) eqn:Ev.
    + rewrite IH. split.
      * intros [before [val [after [E [Hb Hv]]]]].
        exists ((n, v) :: before), val, after. subst rest.
        repeat split; [ constructor; assumption | assumption ].
      * intros [before [val [after [E [Hb Hv]]]]].
        destruct before as [ | b before]; simpl in E.
        -- inversion E; subst. congruence.
        -- inversion E; subst. inversion Hb; subst.
           exists before, val, after. repeat split; assumption.
    + split.
      * intro H. inversion H; subst.
        exists [], v, rest. repeat split; [ constructor | assumption ].
      * intros [before [val [after [E [Hb Hv]]]]].
        destruct before as [ | b before]; simpl in E.
        -- inversion E; subst. reflexivity.
        -- inversion E; subst. inversion Hb; subst.
           unfold numeric in *. simpl in *. congruence.
Qed.

(** X7.  The [TypeError] of [black_scholes] names the first argument, in
    the order [S], [K], [T], [r], [sigma], [q], that is no [int] or
    [float]. *)
Theorem type_error_names_first_offender
    (S K T r sigma option_type q : pyval) (name : string) :
  Pricing.black_scholes S K T r sigma option_type q
  = Raise (TypeError name)
  <-> exists before val after,
        [("S", S); ("K", K); ("T", T); ("r", r); ("sigma", sigma);
         ("q", q)]%string
        = before ++ (name, val) :: after
        /\ Forall numeric (map snd before)
        /\ is_int_or_float val = false.
Proof.
  rewrite <- check_numeric_first.
  unfold Pricing.black_scholes.
  destruct (check_numeric _) as [[] | e] eqn:E.
  - split; [ | discriminate ]. simpl.
    destruct (check_option_type option_type) as [[] | e'] eqn:Eo; simpl.
    + destruct (Rle_dec (to_R T) 0).
      * destruct (is_call option_type); discriminate.
      * destruct (Rle_dec (to_R sigma) 0).
        -- destruct (is_call option_type); discriminate.
        -- destruct (py_div S K) as [ratio | e''] eqn:Ed; simpl.
           ++ destruct (is_call option_type); discriminate.
           ++ unfold py_div in Ed.
              destruct (is_native S && is_native K);
                [ destruct (Req_dec_T (to_R K) 0) | ];
                inversion Ed; subst; discriminate.
    + unfold check_option_type in Eo.
      destruct (is_call option_type || is_put option_type);
        inversion Eo; subst; discriminate.
  - simpl. split; intro H; inversion H; reflexivity.
Qed.

(** ** [pages/2_theCalculator.py] *)

Module Calculator.

(** The time to maturity in years.  [time_value] is the integer of the
    number field; the months and days are divided with [/], which makes
    a float. *)
Definition years (time_value : Z) (time_unit : string) : pyval :=
  if String.eqb time_unit "Years" then PyInt time_value
  else if String.eqb time_unit "Months" then PyFloat (IZR time_value / 12)
  else PyFloat (IZR time_value / 365).

Record outputs : Type := {
  call_price : R;
  put_price : R;
  call_greeks : Greeks.GreekCalculator;
  put_greeks : Greeks.GreekCalculator
}.

(** The calculation of the page, from the values of its number fields. *)
Definition calculate (S K : R) (time_value : Z) (time_unit : string)
    (r sigma div : R) : result outputs :=
  let T := years time_value time_unit in
  call_price <- Pricing.black_scholes (PyFloat S) (PyFloat K) T (PyFloat r)
                  (PyFloat sigma) (PyStr "call") (PyFloat div) ;;
  put_price <- Pricing.black_scholes (PyFloat S) (PyFloat K) T (PyFloat r)
                 (PyFloat sigma) (PyStr "put") (PyFloat div) ;;
  call_greeks <- Greeks.__init__ (PyFloat S) (PyFloat K) T (PyFloat r)
                   (PyFloat sigma) (PyStr "call") ;;
  put_greeks <- Greeks.__init__ (PyFloat S) (PyFloat K) T (PyFloat r)
                  (PyFloat sigma) (PyStr "put") ;;
  Ok {| call_price := call_price; put_price := put_price;
        call_greeks := call_greeks; put_greeks := put_greeks |}.

End Calculator.

(** ** [theOptionChain.py] *)

Module OptionChainPage.

(** The style of one table row: [strike] is the row's index value and
    [row] its cells. *)
Definition highlight_itm {A : Type} (strike : R) (row : list A)
    (current_price : R) (option_type : string) : list string :=
  if String.eqb option_type "call"
     && (if Rlt_dec strike current_price then true else false)
  then repeat "background-color: #e6f7ff"%string (length row)
  else if String.eqb option_type "put"
          && (if Rlt_dec current_price strike then true else false)
  then repeat "background-color: #e6f7ff"%string (length row)
  else repeat ""%string (length row).

End OptionChainPage.

Lemma years_numeric (time_value : Z) (time_unit : string) :
  numeric (Calculator.years time_value time_unit).
Proof.
  unfold Calculator.years.
  destruct (String.eqb time_unit "Years"); [ reflexivity | ].
  destruct (String.eqb time_unit "Months"); reflexivity.
Qed.

(** X8.  For field values of magnitude at most [10^9], the calculator
    page fails exactly when the strike is zero, and then with
    [ZeroDivisionError]; for every other strike it computes both prices
    and both sets of Greeks, also for a maturity of zero. *)
Theorem calculator_fails_iff_zero_strike (S K : R) (time_value : Z)
    (time_unit : string) (r sigma div : R) :
  Forall real_in_range [S; K; IZR time_value; r; sigma; div] ->
  (Calculator.calculate S K time_value time_unit r sigma div
   = Raise ZeroDivisionError
   <-> K = 0)
  /\ ((exists out,
         Calculator.calculate S K time_value time_unit r sigma div = Ok out)
      <-> K <> 0).
Proof.
  intros _.
  pose proof (years_numeric time_value time_unit) as HT.
  set (T := Calculator.years time_value time_unit) in *.
  assert (Hn6 : Forall numeric [PyFloat S; PyFloat K; T; PyFloat r;
                                PyFloat sigma; PyFloat div])
    by (repeat constructor; exact HT).
  assert (Hn5 : Forall numeric [PyFloat S; PyFloat K; T; PyFloat r;
                                PyFloat sigma])
    by (repeat constructor; exact HT).
  assert (Hc : valid_option_type (PyStr "call")) by (left; reflexivity).
  assert (Hp : valid_option_type (PyStr "put")) by (right; reflexivity).
  unfold Calculator.calculate. fold T.
  destruct (Req_dec_T K 0) as [HK | HK].
  - assert (Hz : zero_division (PyFloat S) (PyFloat K))
      by (split; [ reflexivity | exact HK ]).
    assert (E : (call_price <-
                   Pricing.black_scholes (PyFloat S) (PyFloat K) T
                     (PyFloat r) (PyFloat sigma) (PyStr "call")
                     (PyFloat div) ;;
                 put_price <-
                   Pricing.black_scholes (PyFloat S) (PyFloat K) T
                     (PyFloat r) (PyFloat sigma) (PyStr "put")
                     (PyFloat div) ;;
                 call_greeks <-
                   Greeks.__init__ (PyFloat S) (PyFloat K) T (PyFloat r)
                     (PyFloat sigma) (PyStr "call") ;;
                 put_greeks <-
                   Greeks.__init__ (PyFloat S) (PyFloat K) T (PyFloat r)
                     (PyFloat sigma) (PyStr "put") ;;
                 Ok {| Calculator.call_price := call_price;
                       Calculator.put_price := put_price;
                       Calculator.call_greeks := call_greeks;
                       Calculator.put_greeks := put_greeks |})
                = Raise ZeroDivisionError).
    { rewrite (init_zero_division _ _ _ _ _ _ Hn5 Hc Hz).
      destruct (Rle_dec (to_R T) 0) as [H0 | H0].
      - rewrite !black_scholes_expired by assumption. reflexivity.
      - apply Rnot_le_lt in H0.
        destruct (Rle_dec (to_R (PyFloat sigma)) 0) as [Hs | Hs].
        + rewrite !black_scholes_zero_volatility by assumption.
          reflexivity.
        + apply Rnot_le_lt in Hs.
          rewrite !black_scholes_zero_division by assumption.
          reflexivity. }
    rewrite E. split; split; try tauto.
    + intros [out H]. discriminate.
  - assert (Hz : ~ zero_division (PyFloat S) (PyFloat K))
      by (intros [_ H]; exact (HK H)).
    rewrite !(init_ok _ _ _ _ _ _ Hn5) by assumption.
    destruct (black_scholes_classes (PyFloat S) (PyFloat K) T (PyFloat r)
                (PyFloat sigma) (PyStr "call") (PyFloat div))
      as [[H _] | [[_ [H _]] | [[_ [_ [[_ [_ H]] _]]]
         | [_ [_ [_ [c Ec]]]]]]]; try contradiction.
    destruct (black_scholes_classes (PyFloat S) (PyFloat K) T (PyFloat r)
                (PyFloat sigma) (PyStr "put") (PyFloat div))
      as [[H _] | [[_ [H _]] | [[_ [_ [[_ [_ H]] _]]]
         | [_ [_ [_ [p Ep]]]]]]]; try contradiction.
    rewrite Ec, Ep. simpl. split; split; try tauto.
    + discriminate.
    + intros _. eexists. reflexivity.
Qed.

(** The page with the values its fields start from. *)
Lemma calculator_fails_iff_zero_strike_witness :
  exists out, Calculator.calculate 100 105 1 "Years" 0.05 0.2 0 = Ok out.
Proof.
  destruct (calculator_fails_iff_zero_strike 100 105 1 "Years" 0.05 0.2 0)
    as [_ [_ H]].
  - repeat (apply Forall_cons;
            [ unfold real_in_range, range_bound; apply Rabs_le; lra | ]).
    apply Forall_nil.
  - apply H. lra.
Defined.

(** X9.  [highlight_itm] returns one style per cell; a strike is never
    highlighted both as a call and as a put, a strike equal to the
    current price is highlighted in neither table, and an option type
    other than [call] and [put] is never highlighted. *)
Theorem highlight_itm_exclusive {A : Type} (strike current_price : R)
    (row : list A) (option_type : string) :
  let plain := repeat ""%string (length row) in
  length (OptionChainPage.highlight_itm strike row current_price
            option_type) = length row
  /\ (OptionChainPage.highlight_itm strike row current_price "call" = plain
      \/ OptionChainPage.highlight_itm strike row current_price "put"
         = plain)
  /\ (strike = current_price ->
      OptionChainPage.highlight_itm strike row current_price option_type
      = plain)
  /\ (option_type <> "call"%string -> option_type <> "put"%string ->
      OptionChainPage.highlight_itm strike row current_price option_type
      = plain).
Proof.
  intro plain. unfold OptionChainPage.highlight_itm, plain.
  split; [ | split; [ | split ] ].
  - destruct (String.eqb option_type "call" && _);
      [ apply repeat_length | ].
    destruct (String.eqb option_type "put" && _); apply repeat_length.
  - cbn [String.eqb Ascii.eqb Bool.eqb andb].
    destruct (Rlt_dec strike current_price) as [H1 | H1];
      destruct (Rlt_dec current_price strike) as [H2 | H2];
      try (left; reflexivity); try (right; reflexivity).
    lra.
  - intros ->.
    destruct (Rlt_dec current_price current_price) as [H | H]; [ lra | ].
    rewrite !andb_false_r. reflexivity.
  - intros Hc Hp.
    apply String.eqb_neq in Hc. apply String.eqb_neq in Hp.
    rewrite Hc, Hp. reflexivity.
Qed.

Lemma highlight_itm_exclusive_witness :
  OptionChainPage.highlight_itm 100 [1; 2; 3] 100 "call"
  = repeat ""%string 3.
Proof.
  destruct (highlight_itm_exclusive 100 100 [1; 2; 3] "call")
    as [_ [_ [H _]]].
  apply H. reflexivity.
Defined.

(** ** The simulated prices *)

(** The Brownian path [0 :: cumsum row] grows by one increment a step. *)
Lemma cumsum_from_step (row : list R) :
  forall (acc : R) (k : nat),
    (k < length row)%nat ->
    nth k (cumsum_from acc row) 0
    = nth k (acc :: cumsum_from acc row) 0 + nth k row 0.
Proof.
  induction row as [ | x row IH]; intros acc k Hk; simpl in Hk.
  - lia.
  - destruct k as [ | k]; [ reflexivity | ].
    cbn [cumsum_from nth]. apply IH. lia.
Qed.

(** One entry of a price path. *)
Lemma gbm_path_nth (S0 mu sigma : R) (t_vals dW_row : list R) (k : nat) :
  length t_vals = Datatypes.S (length dW_row) ->
  (k <= length dW_row)%nat ->
  nth k (Simulation.gbm_path S0 mu sigma t_vals dW_row) 0
  = S0 * exp ((mu - 0.5 * sigma ^ 2) * nth k t_vals 0
              + sigma * nth k (0 :: cumsum dW_row) 0).
Proof.
  intros Hlen Hk. unfold Simulation.gbm_path.
  set (f := fun tw : R * R =>
              S0 * exp ((mu - 0.5 * sigma ^ 2) * fst tw + sigma * snd tw)).
  assert (HW : length (0 :: cumsum dW_row) = length t_vals)
    by (simpl; unfold cumsum; rewrite cumsum_from_length; lia).
  rewrite (nth_indep _ 0 (f (0, 0))).
  - rewrite (map_nth f), combine_nth by (symmetry; exact HW).
    reflexivity.
  - rewrite length_map, length_combine, HW, Nat.min_id. lia.
Qed.

(** X10.  A price path starts at [S0] and moves by the log-normal step:
    each price is the previous one times
    [exp ((mu - sigma^2 / 2) dt + sigma dW_k)], with [dt = T / N]; so all
    its prices are positive when [S0] is. *)
Theorem gbm_path_steps (S0 mu sigma T : R) (N : nat) (dW_row : list R) :
  (0 < N)%nat -> length dW_row = N ->
  let path :=
    Simulation.gbm_path S0 mu sigma (linspace 0 T (N + 1)) dW_row in
  nth 0 path 0 = S0
  /\ (forall k, (k < N)%nat ->
      nth (Datatypes.S k) path 0
      = nth k path 0
        * exp ((mu - 0.5 * sigma ^ 2) * (T / INR N)
               + sigma * nth k dW_row 0))
  /\ (0 < S0 -> Forall (fun price => 0 < price) path).
Proof.
  intros HN Hrow path.
  assert (Ht : length (linspace 0 T (N + 1))
               = Datatypes.S (length dW_row))
    by (rewrite linspace_length; lia).
  assert (Htk : forall k, (k <= N)%nat ->
                  nth k (linspace 0 T (N + 1)) 0 = INR k * (T / INR N)).
  { intros k Hk. rewrite linspace_nth by lia.
    replace (N + 1 - 1)%nat with N by lia. lra. }
  split; [ | split ].
  - unfold path. rewrite gbm_path_nth by (assumption || lia).
    rewrite Htk by lia. cbn [nth INR].
    replace ((mu - 0.5 * sigma ^ 2) * (0 * (T / INR N)) + sigma * 0)
      with 0 by ring.
    rewrite exp_0. ring.
  - intros k Hk. unfold path.
    rewrite !gbm_path_nth by (assumption || lia).
    rewrite !Htk by lia. rewrite Rmult_assoc, <- exp_plus.
    f_equal. f_equal.
    change (nth (Datatypes.S k) (0 :: cumsum dW_row) 0)
      with (nth k (cumsum_from 0 dW_row) 0).
    rewrite cumsum_from_step by lia.
    unfold cumsum. rewrite S_INR. ring.
  - intro HS0. unfold path, Simulation.gbm_path.
    apply Forall_forall. intros price Hin.
    apply in_map_iff in Hin. destruct Hin as [tw [<- _]].
    apply Rmult_lt_0_compat; [ exact HS0 | apply exp_pos ].
Qed.

Lemma gbm_path_steps_witness :
  nth 1 (Simulation.gbm_path 100 0.05 0.2 (linspace 0 1 (2 + 1))
           [0.1; -0.2]) 0
  = nth 0 (Simulation.gbm_path 100 0.05 0.2 (linspace 0 1 (2 + 1))
             [0.1; -0.2]) 0
    * exp ((0.05 - 0.5 * 0.2 ^ 2) * (1 / INR 2) + 0.2 * 0.1).
Proof.
  destruct (gbm_path_steps 100 0.05 0.2 1 2 [0.1; -0.2]) as [_ [H _]];
    try concrete.
  apply (H 0%nat). lia.
Defined.

(** ** The recorded hedge *)

Lemma bs_delta_range (S K T r sigma : R) (option_type : string) :
  let delta := Simulation.bs_delta S K T r sigma option_type in
  if String.eqb option_type "call" then 0 <= delta <= 1
  else -1 <= delta <= 0.
Proof.
  unfold Simulation.bs_delta.
  destruct (String.eqb option_type "call").
  - apply Normal.cdf_range.
  - match goal with
    | |- _ <= - Normal.cdf ?x <= _ => pose proof (Normal.cdf_range x)
    end.
    lra.
Qed.

Lemma hedge_loop_deltas (P : R -> Prop)
    (strike T r sigma dt : R) (option_type : string) (path : list R) :
  (forall S tau, P (Simulation.bs_delta S strike tau r sigma option_type)) ->
  forall indices st,
    Forall P (Simulation.deltas st) ->
    Forall P (Simulation.deltas
                (Simulation.hedge_loop strike T r sigma dt option_type
                   path indices st)).
Proof.
  intros HP. induction indices as [ | i rest IH]; intros st Hst; simpl.
  - exact Hst.
  - destruct (Rle_dec (T - INR i * dt) 0); [ exact Hst | ].
    apply IH. simpl. apply Forall_app. split; [ exact Hst | ].
    constructor; [ apply HP | constructor ].
Qed.

(** X11.  In a run with positive [S0], strike, [sigma] and [T], every
    recorded delta lies in [[0, 1]] for a call and in [[-1, 0]] for any
    other option type. *)
Theorem recorded_deltas_in_range (S0 mu sigma strike premium T r : R)
    (option_type : string) (qty : Z) (N : nat) (dW : list (list R)) :
  0 < S0 -> 0 < strike -> 0 < sigma -> 0 < T -> (0 < N)%nat ->
  exists res,
    Simulation.run_simulation S0 mu sigma strike premium T r option_type
      qty N dW
    = Ok res
    /\ Forall
         (Forall (fun delta =>
                    if String.eqb option_type "call" then 0 <= delta <= 1
                    else -1 <= delta <= 0))
         (Simulation.delta_paths res).
Proof.
  intros _ _ _ _ HN.
  eexists. split; [ apply run_simulation_ok; exact HN | ].
  cbn [Simulation.delta_paths]. rewrite !map_map.
  apply Forall_forall. intros track Hin.
  apply in_map_iff in Hin. destruct Hin as [row [<- _]].
  unfold Simulation.simulate_path. cbn [snd].
  apply hedge_loop_deltas; [ | constructor ].
  intros S tau. apply bs_delta_range.
Qed.

Lemma recorded_deltas_in_range_witness :
  exists res,
    Simulation.run_simulation 100 0.05 0.2 100 5 1 0.05 "put" 1 2
      [[0.1; -0.2]]
    = Ok res
    /\ Forall (Forall (fun delta => -1 <= delta <= 0))
         (Simulation.delta_paths res).
Proof.
  apply (recorded_deltas_in_range 100 0.05 0.2 100 5 1 0.05 "put" 1 2
           [[0.1; -0.2]]); concrete.
Defined.

(** The profit of every path scales with the quantity, and the
    recorded trajectories do not depend on it: a run with quantity [qty]
    has [qty] times the profits of the run with quantity [1], so a short
    position mirrors the long one. *)
Theorem pnl_scales_with_quantity (S0 mu sigma strike premium T r : R)
    (option_type : string) (qty : Z) (N : nat) (dW : list (list R)) :
  (0 < N)%nat ->
  exists res unit_res,
    Simulation.run_simulation S0 mu sigma strike premium T r option_type
      qty N dW
    = Ok res
    /\ Simulation.run_simulation S0 mu sigma strike premium T r
         option_type 1 N dW
       = Ok unit_res
    /\ Simulation.pnl_paths res
       = map (fun pnl => IZR qty * pnl) (Simulation.pnl_paths unit_res)
    /\ Simulation.stock_paths res = Simulation.stock_paths unit_res
    /\ Simulation.delta_paths res = Simulation.delta_paths unit_res.
Proof.
  intro HN. eexists. eexists.
  split; [ apply run_simulation_ok; exact HN | ].
  split; [ apply run_simulation_ok; exact HN | ].
  cbn [Simulation.pnl_paths Simulation.stock_paths Simulation.delta_paths].
  rewrite !map_map.
  split; [ | split ]; apply map_ext; intro row;
    unfold Simulation.simulate_path; cbn [fst snd]; try reflexivity.
  ring.
Qed.

Lemma pnl_scales_with_quantity_witness :
  exists res unit_res,
    Simulation.run_simulation 100 0.05 0.2 100 5 1 0.05 "call" (-3) 2
      [[0.1; -0.2]]
    = Ok res
    /\ Simulation.run_simulation 100 0.05 0.2 100 5 1 0.05 "call" 1 2
         [[0.1; -0.2]]
       = Ok unit_res
    /\ Simulation.pnl_paths res
       = map (fun pnl => -3 * pnl) (Simulation.pnl_paths unit_res).
Proof.
  destruct (pnl_scales_with_quantity 100 0.05 0.2 100 5 1 0.05 "call" (-3)
              2 [[0.1; -0.2]]) as [res [unit_res [H1 [H2 [H3 _]]]]];
    [ lia | ].
  exists res, unit_res. repeat split; assumption.
Defined.

(** ** The plots of the simulation page *)

Module SimulationPlots.

(** The x values of a trajectory plot, [t_vals[:len(track)]]. *)
Definition plot_times (t_vals track : list R) : list R :=
  firstn (length track) t_vals.

End SimulationPlots.

Lemma firstn_seq_prefix (n m : nat) :
  forall start, firstn n (seq start (n + m)) = seq start n.
Proof.
  induction n as [ | n IH]; intro start; simpl.
  - reflexivity.
  - f_equal. apply IH.
Qed.

(** X12.  In a run with [T > 0], [N > 0] and [N] draws per path, every
    recorded stock and delta trajectory is plotted against the times
    [0, dt, ..., (N - 1) dt]: one time per entry, the entry of step [i]
    at time [i dt], and the last grid time [T] is never used. *)
Theorem trajectories_plotted_at_step_times
    (S0 mu sigma strike premium T r : R) (option_type : string) (qty : Z)
    (N : nat) (dW : list (list R)) :
  0 < T -> (0 < N)%nat ->
  Forall (fun row => length row = N) dW ->
  exists res,
    Simulation.run_simulation S0 mu sigma strike premium T r option_type
      qty N dW
    = Ok res
    /\ forall track,
         In track (Simulation.stock_paths res)
         \/ In track (Simulation.delta_paths res) ->
         SimulationPlots.plot_times (Simulation.t_vals res) track
         = map (fun i => INR i * (T / INR N)) (seq 0 N).
Proof.
  intros HT HN Hrows.
  eexists. split; [ apply run_simulation_ok; exact HN | ].
  cbn [Simulation.t_vals Simulation.stock_paths Simulation.delta_paths].
  assert (Htimes : firstn N (linspace 0 T (N + 1))
                   = map (fun i => INR i * (T / INR N)) (seq 0 N)).
  { unfold linspace. rewrite firstn_map, firstn_seq_prefix.
    apply map_ext. intro k.
    replace (N + 1 - 1)%nat with N by lia. lra. }
  assert (Hlen : forall row, In row dW ->
            let out :=
              Simulation.simulate_path strike premium T r sigma
                (T / INR N) option_type qty N
                (Simulation.gbm_path S0 mu sigma (linspace 0 T (N + 1))
                   row) in
            length (snd (fst out)) = N /\ length (snd out) = N).
  { intros row Hin.
    assert (Hp : length (Simulation.gbm_path S0 mu sigma
                           (linspace 0 T (N + 1)) row) = Datatypes.S N).
    { apply gbm_path_length.
      - rewrite linspace_length. lia.
      - rewrite Forall_forall in Hrows. apply Hrows, Hin. }
    destruct (simulate_path_trajectories strike premium T r sigma
                option_type qty N _ HT Hp) as [Hs Hd].
    split; [ | exact Hd ].
    rewrite Hs, removelast_firstn_len, Hp, length_firstn, Hp.
    simpl. lia. }
  intros track Hin. unfold SimulationPlots.plot_times.
  rewrite !map_map in Hin.
  destruct Hin as [Hin | Hin];
    apply in_map_iff in Hin; destruct Hin as [row [<- Hin]];
    destruct (Hlen row Hin) as [Hs Hd].
  - rewrite Hs. exact Htimes.
  - rewrite Hd. exact Htimes.
Qed.

Lemma trajectories_plotted_at_step_times_witness :
  exists res,
    Simulation.run_simulation 100 0.05 0.2 100 5 1 0.05 "call" 1 2
      [[0.1; -0.2]]
    = Ok res
    /\ forall track,
         In track (Simulation.stock_paths res)
         \/ In track (Simulation.delta_paths res) ->
         SimulationPlots.plot_times (Simulation.t_vals res) track
         = map (fun i => INR i * (1 / INR 2)) (seq 0 2).
Proof.
  apply (trajectories_plotted_at_step_times 100 0.05 0.2 100 5 1 0.05
           "call" 1 2 [[0.1; -0.2]]); concrete.
Defined.

(** ** The aggregated curves of a portfolio *)

(** The six arrays the evaluation fills. *)
Inductive curve : Type :=
| Payoff | Delta | Gamma | Vega | Theta | Rho.

Definition curve_of (c : curve) (tot : Portfolio.totals) : list R :=
  match c with
  | Payoff => Portfolio.total_payoff tot
  | Delta => Portfolio.total_delta tot
  | Gamma => Portfolio.total_gamma tot
  | Vega => Portfolio.total_vega tot
  | Theta => Portfolio.total_theta tot
  | Rho => Portfolio.total_rho tot
  end.

(** What one unit of a position adds to a curve at the grid price [S]. *)
Definition unit_value (c : curve) (position : Portfolio.position) (S : R)
  : R :=
  let K := Portfolio.strike position in
  let T := Rmax (IZR (Portfolio.expiry position) / 365) 1e-6 in
  let greek :=
    greek_object (NpFloat S) (PyFloat K) (PyFloat T) (PyFloat 0.05)
      (PyFloat (Portfolio.implied_volatility position))
      (PyStr (Portfolio.option_type position)) in
  match c with
  | Payoff =>
      (if String.eqb (Portfolio.option_type position) "call"
       then Rmax (S - K) 0 else Rmax (K - S) 0)
      - Portfolio.premium position
  | Delta => Greeks.delta greek
  | Gamma => Greeks.gamma greek
  | Vega => Greeks.vega greek
  | Theta => Greeks.theta greek
  | Rho => Greeks.rho greek
  end.

(** What the position adds: the unit value times the signed quantity. *)
Definition contribution (c : curve) (position : Portfolio.position)
    (S : R) : R :=
  IZR (Portfolio.qty position) * unit_value c position S.

Definition valid_position (position : Portfolio.position) : Prop :=
  valid_option_type (PyStr (Portfolio.option_type position)).

Fixpoint Rsum (l : list R) : R :=
  match l with
  | [] => 0
  | x :: rest => x + Rsum rest
  end.

(** The grid loop of a valid position, curve by curve. *)
Lemma grid_loop_curves (position : Portfolio.position)
    (grid : list (nat * R)) :
  valid_position position ->
  forall tot,
  exists tot',
    Portfolio.grid_loop (Portfolio.option_type position)
      (Portfolio.strike position) (Portfolio.qty position)
      (Portfolio.implied_volatility position) (Portfolio.premium position)
      (Rmax (IZR (Portfolio.expiry position) / 365) 1e-6) 0.05 grid tot
    = Ok tot'
    /\ forall c,
         curve_of c tot'
         = fold_left
             (fun acc (e : nat * R) =>
                add_at (fst e) (contribution c position (snd e)) acc)
             grid (curve_of c tot).
Proof.
  intro Hv. induction grid as [ | entry grid IH]; intro tot.
  - exists tot. split; [ reflexivity | ]. intro c. reflexivity.
  - cbn [Portfolio.grid_loop]. rewrite init_on_grid by exact Hv.
    cbn [bind].
    match goal with
    | |- exists t, Portfolio.grid_loop _ _ _ _ _ _ _ _ ?tot1 = _ /\ _ =>
        destruct (IH tot1) as [tot' [E P]]
    end.
    exists tot'. split; [ exact E | ].
    intro c. rewrite P. destruct c; reflexivity.
Qed.

(** The grid loop of a position with an unknown option type raises at the
    first grid point. *)
Lemma grid_loop_invalid (position : Portfolio.position)
    (grid : list (nat * R)) (tot : Portfolio.totals) :
  ~ valid_position position -> grid <> [] ->
  Portfolio.grid_loop (Portfolio.option_type position)
    (Portfolio.strike position) (Portfolio.qty position)
    (Portfolio.implied_volatility position) (Portfolio.premium position)
    (Rmax (IZR (Portfolio.expiry position) / 365) 1e-6) 0.05 grid tot
  = Raise ValueError.
Proof.
  intros Hv Hg. destruct grid as [ | entry grid]; [ contradiction | ].
  cbn [Portfolio.grid_loop].
  rewrite init_value_error; [ reflexivity | repeat constructor | exact Hv ].
Qed.

Lemma fold_contribution_length (f : R -> R) (grid a : list R) :
  length
    (fold_left (fun acc (e : nat * R) => add_at (fst e) (f (snd e)) acc)
       (enumerate grid) a)
  = length a.
Proof. apply fold_add_at_length. Qed.

Lemma fold_contribution_nth (f : R -> R) (grid a : list R) (i : nat) :
  length a = length grid -> (i < length grid)%nat ->
  nth i
    (fold_left (fun acc (e : nat * R) => add_at (fst e) (f (snd e)) acc)
       (enumerate grid) a) 0
  = nth i a 0 + f (nth i grid 0).
Proof.
  intros Hlen Hi. unfold enumerate.
  rewrite fold_add_at_nth by lia.
  replace (i <? 0 + length grid)%nat with true
    by (symmetry; apply Nat.ltb_lt; lia).
  cbn [Nat.leb andb]. rewrite Nat.sub_0_r. reflexivity.
Qed.

(** The loop over a portfolio of valid positions adds, in every cell of
    every curve, the contributions of all positions. *)
Lemma portfolio_loop_curves (grid : list R)
    (portfolio : list Portfolio.position) :
  Forall valid_position portfolio ->
  forall tot,
    (forall c, length (curve_of c tot) = length grid) ->
    exists tot',
      Portfolio.portfolio_loop grid portfolio tot = Ok tot'
      /\ forall c,
           length (curve_of c tot') = length grid
           /\ forall i, (i < length grid)%nat ->
                nth i (curve_of c tot') 0
                = nth i (curve_of c tot) 0
                  + Rsum (map (fun position =>
                                 contribution c position (nth i grid 0))
                            portfolio).
Proof.
  induction portfolio as [ | position rest IH]; intros Hv tot Hlen.
  - exists tot. split; [ reflexivity | ]. intro c.
    split; [ apply Hlen | ]. intros i Hi. simpl. ring.
  - inversion Hv as [ | ? ? Hp Hr]; subst.
    cbn [Portfolio.portfolio_loop].
    destruct (grid_loop_curves position (enumerate grid) Hp tot)
      as [tot1 [E1 P1]].
    rewrite E1. cbn [bind].
    assert (Hlen1 : forall c, length (curve_of c tot1) = length grid).
    { intro c. rewrite P1, fold_contribution_length. apply Hlen. }
    destruct (IH Hr tot1 Hlen1) as [tot' [E' P']].
    exists tot'. split; [ exact E' | ]. intro c.
    destruct (P' c) as [L' N']. split; [ exact L' | ].
    intros i Hi. rewrite N' by exact Hi.
    rewrite P1, fold_contribution_nth by (apply Hlen || exact Hi).
    simpl. ring.
Qed.

(** The loop over a portfolio with an unknown option type raises. *)
Lemma portfolio_loop_invalid (grid : list R)
    (portfolio : list Portfolio.position) :
  grid <> [] -> ~ Forall valid_position portfolio ->
  forall tot,
    (forall c, length (curve_of c tot) = length grid) ->
    Portfolio.portfolio_loop grid portfolio tot = Raise ValueError.
Proof.
  intros Hg. induction portfolio as [ | position rest IH];
    intros Hv tot Hlen.
  - exfalso. apply Hv. constructor.
  - cbn [Portfolio.portfolio_loop].
    destruct (valid_option_type_dec
                (PyStr (Portfolio.option_type position))) as [Hp | Hp].
    + destruct (grid_loop_curves position (enumerate grid) Hp tot)
        as [tot1 [E1 P1]].
      rewrite E1. cbn [bind]. apply IH.
      * intro Hr. apply Hv. constructor; assumption.
      * intro c. rewrite P1, fold_contribution_length. apply Hlen.
    + rewrite grid_loop_invalid; [ reflexivity | exact Hp | ].
      unfold enumerate. destruct grid; [ contradiction | discriminate ].
Qed.

Lemma S_range_length (portfolio : list Portfolio.position) :
  length (Portfolio.S_range portfolio) = 200%nat.
Proof. apply linspace_length. Qed.

Lemma evaluate_nonempty (portfolio : list Portfolio.position) :
  portfolio <> [] ->
  Portfolio.evaluate portfolio
  = let grid := Portfolio.S_range portfolio in
    Some (Portfolio.portfolio_loop grid portfolio
            {| Portfolio.total_delta := zeros_like grid;
               Portfolio.total_gamma := zeros_like grid;
               Portfolio.total_vega := zeros_like grid;
               Portfolio.total_theta := zeros_like grid;
               Portfolio.total_rho := zeros_like grid;
               Portfolio.total_payoff := zeros_like grid |}).
Proof.
  intro H. destruct portfolio; [ contradiction | reflexivity ].
Qed.

Lemma zero_totals_length (grid : list R) (c : curve) :
  length
    (curve_of c
       {| Portfolio.total_delta := zeros_like grid;
          Portfolio.total_gamma := zeros_like grid;
          Portfolio.total_vega := zeros_like grid;
          Portfolio.total_theta := zeros_like grid;
          Portfolio.total_rho := zeros_like grid;
          Portfolio.total_payoff := zeros_like grid |})
  = length grid.
Proof. destruct c; apply zeros_like_length. Qed.

Lemma zero_totals_nth (grid : list R) (c : curve) (i : nat) :
  nth i
    (curve_of c
       {| Portfolio.total_delta := zeros_like grid;
          Portfolio.total_gamma := zeros_like grid;
          Portfolio.total_vega := zeros_like grid;
          Portfolio.total_theta := zeros_like grid;
          Portfolio.total_rho := zeros_like grid;
          Portfolio.total_payoff := zeros_like grid |}) 0
  = 0.
Proof. destruct c; apply zeros_like_nth. Qed.

(** The evaluation of a non-empty portfolio of valid positions. *)
Lemma evaluate_curves (portfolio : list Portfolio.position) :
  portfolio <> [] -> Forall valid_position portfolio ->
  exists tot,
    Portfolio.evaluate portfolio = Some (Ok tot)
    /\ forall c,
         length (curve_of c tot) = 200%nat
         /\ forall i, (i < 200)%nat ->
              nth i (curve_of c tot) 0
              = Rsum (map (fun position =>
                             contribution c position
                               (nth i (Portfolio.S_range portfolio) 0))
                        portfolio).
Proof.
  intros Hne Hv. rewrite evaluate_nonempty by exact Hne. cbv zeta.
  destruct (portfolio_loop_curves (Portfolio.S_range portfolio) portfolio
              Hv _ (zero_totals_length (Portfolio.S_range portfolio)))
    as [tot [E P]].
  exists tot. split; [ rewrite E; reflexivity | ].
  intro c. destruct (P c) as [L N]. rewrite S_range_length in L, N.
  split; [ exact L | ].
  intros i Hi. rewrite N by exact Hi. rewrite zero_totals_nth. ring.
Qed.

(** A position inside the domain of the formulas: a valid option type, a
    positive strike and a positive implied volatility. *)
Definition sound_position (position : Portfolio.position) : Prop :=
  valid_position position
  /\ 0 < Portfolio.strike position
  /\ 0 < Portfolio.implied_volatility position.

Lemma sound_positions_valid (portfolio : list Portfolio.position) :
  Forall sound_position portfolio -> Forall valid_position portfolio.
Proof.
  apply Forall_impl. intros position [H _]. exact H.
Qed.

(** X13.  For a non-empty portfolio of [call] and [put] positions with
    positive strikes and volatilities, the evaluation returns six curves
    of 200 points, and at every grid price each curve is the sum over the
    positions of the signed quantity times the position's own value
    there: the intrinsic value less the premium for the payoff, the Greek
    of the position's [GreekCalculator] for the five exposures. *)
Theorem portfolio_curves_are_weighted_sums
    (portfolio : list Portfolio.position) :
  portfolio <> [] -> Forall sound_position portfolio ->
  exists tot,
    Portfolio.evaluate portfolio = Some (Ok tot)
    /\ forall c,
         length (curve_of c tot) = 200%nat
         /\ forall i, (i < 200)%nat ->
              nth i (curve_of c tot) 0
              = Rsum (map (fun position =>
                             IZR (Portfolio.qty position)
                             * unit_value c position
                                 (nth i (Portfolio.S_range portfolio) 0))
                        portfolio).
Proof.
  intros Hne Hs. apply evaluate_curves; [ exact Hne | ].
  apply sound_positions_valid, Hs.
Qed.

(** The demonstration portfolio of the page, [59] whole days before its
    expiry. *)
Definition demo_portfolio : list Portfolio.position :=
  [ {| Portfolio.option_type := "call"; Portfolio.strike := 100;
       Portfolio.qty := 1; Portfolio.expiry := 59;
       Portfolio.implied_volatility := 0.25; Portfolio.premium := 5 |};
    {| Portfolio.option_type := "put"; Portfolio.strike := 90;
       Portfolio.qty := -1; Portfolio.expiry := 59;
       Portfolio.implied_volatility := 0.30; Portfolio.premium := 4 |} ].

Lemma demo_portfolio_sound : Forall sound_position demo_portfolio.
Proof.
  constructor.
  - split; [ left; reflexivity | simpl; lra ].
  - constructor; [ | constructor ].
    split; [ right; reflexivity | simpl; lra ].
Qed.

Lemma demo_portfolio_valid : Forall valid_position demo_portfolio.
Proof. apply sound_positions_valid, demo_portfolio_sound. Qed.

Lemma portfolio_curves_are_weighted_sums_witness :
  exists tot,
    Portfolio.evaluate demo_portfolio = Some (Ok tot)
    /\ forall c,
         length (curve_of c tot) = 200%nat
         /\ forall i, (i < 200)%nat ->
              nth i (curve_of c tot) 0
              = Rsum (map (fun position =>
                             IZR (Portfolio.qty position)
                             * unit_value c position
                                 (nth i (Portfolio.S_range demo_portfolio)
                                    0))
                        demo_portfolio).
Proof.
  apply (portfolio_curves_are_weighted_sums demo_portfolio).
  - discriminate.
  - exact demo_portfolio_sound.
Defined.

Lemma Forall_valid_position_dec (portfolio : list Portfolio.position) :
  {Forall valid_position portfolio} + {~ Forall valid_position portfolio}.
Proof.
  apply Forall_dec. intro position. apply valid_option_type_dec.
Qed.

(** X14.  For positions whose fields have a magnitude of at most [10^9],
    the evaluation is skipped for an empty portfolio, raises [ValueError]
    exactly when some position has an option type other than [call] and
    [put], and returns the curves otherwise. *)
Theorem evaluate_outcomes (portfolio : list Portfolio.position) :
  Forall position_in_range portfolio ->
  (Portfolio.evaluate portfolio = None <-> portfolio = [])
  /\ (Portfolio.evaluate portfolio = Some (Raise ValueError)
      <-> portfolio <> [] /\ ~ Forall valid_position portfolio)
  /\ ((exists tot, Portfolio.evaluate portfolio = Some (Ok tot))
      <-> portfolio <> [] /\ Forall valid_position portfolio).
Proof.
  intros _.
  destruct portfolio as [ | position rest].
  - simpl. split; [ tauto | ]. split; split.
    + discriminate.
    + intros [Hne _]. contradiction.
    + intros [tot Htot]. discriminate.
    + intros [Hne _]. contradiction.
  - assert (Hne : position :: rest <> []) by discriminate.
    destruct (Forall_valid_position_dec (position :: rest)) as [Hv | Hv].
    + destruct (evaluate_curves _ Hne Hv) as [tot [E _]].
      rewrite E. split; [ split; [ discriminate | congruence ] | ].
      split; split.
      * discriminate.
      * intros [_ Hnv]. contradiction.
      * intros _. split; assumption.
      * intros _. exists tot. reflexivity.
    + rewrite evaluate_nonempty by exact Hne. cbv zeta.
      rewrite portfolio_loop_invalid; try assumption.
      * split; [ split; [ discriminate | congruence ] | ].
        split; split.
        -- intros _. split; assumption.
        -- reflexivity.
        -- intros [tot Htot]. discriminate.
        -- intros [_ Hall]. contradiction.
      * intro H. pose proof (S_range_length (position :: rest)) as L.
        rewrite H in L. discriminate.
      * apply zero_totals_length.
Qed.

Lemma demo_portfolio_in_range : Forall position_in_range demo_portfolio.
Proof.
  repeat (apply Forall_cons; [ repeat split; in_range_solve | ]).
  apply Forall_nil.
Defined.

(** The demonstration portfolio is evaluated. *)
Lemma evaluate_outcomes_witness :
  exists tot, Portfolio.evaluate demo_portfolio = Some (Ok tot).
Proof.
  destruct (evaluate_outcomes demo_portfolio demo_portfolio_in_range)
    as [_ [_ H]].
  apply H. split; [ discriminate | exact demo_portfolio_valid ].
Defined.

(** The same position with the opposite sign of the quantity. *)
Definition opposite (position : Portfolio.position) : Portfolio.position :=
  {| Portfolio.option_type := Portfolio.option_type position;
     Portfolio.strike := Portfolio.strike position;
     Portfolio.qty := - Portfolio.qty position;
     Portfolio.expiry := Portfolio.expiry position;
     Portfolio.implied_volatility := Portfolio.implied_volatility position;
     Portfolio.premium := Portfolio.premium position |}.

(** X15.  A position and its opposite cancel: for a portfolio made of a
    long and a short position that agree in everything but the sign of
    the quantity (valid option type, positive strike and volatility), the
    payoff curve and the five exposure curves are zero at every grid
    price. *)
Theorem opposite_positions_cancel (position : Portfolio.position) :
  sound_position position ->
  exists tot,
    Portfolio.evaluate [position; opposite position] = Some (Ok tot)
    /\ forall c i, (i < 200)%nat -> nth i (curve_of c tot) 0 = 0.
Proof.
  intros [Hv _].
  destruct (evaluate_curves [position; opposite position])
    as [tot [E P]].
  - discriminate.
  - constructor; [ exact Hv | ].
    constructor; [ exact Hv | constructor ].
  - exists tot. split; [ exact E | ].
    intros c i Hi. destruct (P c) as [_ N]. rewrite N by exact Hi.
    cbn [map Rsum]. unfold contribution.
    replace (unit_value c (opposite position))
      with (unit_value c position) by (destruct c; reflexivity).
    cbn [opposite Portfolio.qty]. rewrite opp_IZR. ring.
Qed.

Lemma opposite_positions_cancel_witness :
  exists tot,
    Portfolio.evaluate
      [ {| Portfolio.option_type := "put"; Portfolio.strike := 90;
           Portfolio.qty := 2; Portfolio.expiry := 30;
           Portfolio.implied_volatility := 0.3; Portfolio.premium := 4 |};
        {| Portfolio.option_type := "put"; Portfolio.strike := 90;
           Portfolio.qty := -2; Portfolio.expiry := 30;
           Portfolio.implied_volatility := 0.3; Portfolio.premium := 4 |} ]
    = Some (Ok tot)
    /\ forall c i, (i < 200)%nat -> nth i (curve_of c tot) 0 = 0.
Proof.
  apply (opposite_positions_cancel
           {| Portfolio.option_type := "put"; Portfolio.strike := 90;
              Portfolio.qty := 2; Portfolio.expiry := 30;
              Portfolio.implied_volatility := 0.3;
              Portfolio.premium := 4 |}).
  split; [ right; reflexivity | simpl; lra ].
Defined.

Lemma unit_payoff_lower_bound (position : Portfolio.position) (S : R) :
  - Portfolio.premium position <= unit_value Payoff position S.
Proof.
  unfold unit_value.
  destruct (String.eqb (Portfolio.option_type position) "call").
  - pose proof (Rmax_r (S - Portfolio.strike position) 0). lra.
  - pose proof (Rmax_r (Portfolio.strike position - S) 0). lra.
Qed.

(** X16.  For a non-empty portfolio of valid positions that are all long
    (no negative quantity) the payoff curve never falls below minus the
    premiums paid; if they are all short (no positive quantity) it never
    rises above the premiums received. *)
Theorem payoff_bounded_by_premiums (portfolio : list Portfolio.position) :
  portfolio <> [] -> Forall valid_position portfolio ->
  let premiums :=
    Rsum (map (fun position =>
                 IZR (Portfolio.qty position) * Portfolio.premium position)
            portfolio) in
  exists tot,
    Portfolio.evaluate portfolio = Some (Ok tot)
    /\ (Forall (fun position => (0 <= Portfolio.qty position)%Z) portfolio
        -> forall i, (i < 200)%nat ->
             - premiums <= nth i (Portfolio.total_payoff tot) 0)
    /\ (Forall (fun position => (Portfolio.qty position <= 0)%Z) portfolio
        -> forall i, (i < 200)%nat ->
             nth i (Portfolio.total_payoff tot) 0 <= - premiums).
Proof.
  intros Hne Hv premiums.
  destruct (evaluate_curves portfolio Hne Hv) as [tot [E P]].
  exists tot. split; [ exact E | ].
  destruct (P Payoff) as [_ N]. cbn [curve_of] in N.
  unfold premiums. clear E P Hne Hv premiums.
  split; intros Hq i Hi; rewrite (N i Hi);
    generalize (nth i (Portfolio.S_range portfolio) 0) as S; intro S;
    clear N; induction Hq as [ | position rest Hp Hr IH];
    cbn [map Rsum]; try lra;
    pose proof (unit_payoff_lower_bound position S) as Hu;
    unfold contribution at 1; apply IZR_le in Hp.
  - assert (IZR (Portfolio.qty position) * - Portfolio.premium position
            <= IZR (Portfolio.qty position) * unit_value Payoff position S)
      by (apply Rmult_le_compat_l; assumption).
    lra.
  - assert (IZR (Portfolio.qty position) * unit_value Payoff position S
            <= IZR (Portfolio.qty position) * - Portfolio.premium position)
      by (apply Rmult_le_compat_neg_l; assumption).
    lra.
Qed.

Lemma payoff_bounded_by_premiums_witness :
  exists tot,
    Portfolio.evaluate
      [ {| Portfolio.option_type := "call"; Portfolio.strike := 100;
           Portfolio.qty := 2; Portfolio.expiry := 30;
           Portfolio.implied_volatility := 0.25; Portfolio.premium := 5 |} ]
    = Some (Ok tot)
    /\ forall i, (i < 200)%nat ->
         - (2 * 5 + 0) <= nth i (Portfolio.total_payoff tot) 0.
Proof.
  destruct (payoff_bounded_by_premiums
              [ {| Portfolio.option_type := "call"; Portfolio.strike := 100;
                   Portfolio.qty := 2; Portfolio.expiry := 30;
                   Portfolio.implied_volatility := 0.25;
                   Portfolio.premium := 5 |} ])
    as [tot [E [Hlong _]]].
  - discriminate.
  - constructor; [ left; reflexivity | constructor ].
  - exists tot. split; [ exact E | ].
    apply Hlong. constructor; [ simpl; lia | constructor ].
Defined.

(** ** The price grid of the portfolio page *)

Lemma fold_left_Rmin_bounds (l : list R) :
  forall x c,
    c <= x -> (forall y, In y l -> c <= y) ->
    c <= fold_left Rmin l x
    /\ fold_left Rmin l x <= x
    /\ forall y, In y l -> fold_left Rmin l x <= y.
Proof.
  induction l as [ | z l IH]; intros x c Hx Hl; simpl.
  - repeat split; try lra. intros y [].
  - assert (Hz : c <= z) by (apply Hl; left; reflexivity).
    destruct (IH (Rmin x z) c) as [H1 [H2 H3]].
    + apply Rmin_glb; assumption.
    + intros y Hy. apply Hl. right. exact Hy.
    + pose proof (Rmin_l x z). pose proof (Rmin_r x z).
      repeat split; try lra.
      intros y [-> | Hy]; [ lra | apply H3, Hy ].
Qed.

Lemma fold_left_Rmax_bounds (l : list R) :
  forall x,
    x <= fold_left Rmax l x
    /\ forall y, In y l -> y <= fold_left Rmax l x.
Proof.
  induction l as [ | z l IH]; intro x; simpl.
  - split; [ lra | intros y [] ].
  - destruct (IH (Rmax x z)) as [H1 H2].
    pose proof (Rmax_l x z). pose proof (Rmax_r x z).
    split; [ lra | ].
    intros y [-> | Hy]; [ lra | apply H2, Hy ].
Qed.

(** X17.  For a non-empty portfolio whose strikes are all at least [1],
    the 200 grid prices increase from [max(1, 0.6 min strike)] to
    [1.4 max strike], and every strike of the portfolio lies between the
    first and the last grid price. *)
Theorem grid_spans_strikes (portfolio : list Portfolio.position) :
  portfolio <> [] ->
  Forall (fun position => 1 <= Portfolio.strike position) portfolio ->
  let grid := Portfolio.S_range portfolio in
  let strikes := map Portfolio.strike portfolio in
  length grid = 200%nat
  /\ nth 0 grid 0 = Rmax 1 (Portfolio.list_min strikes * 0.6)
  /\ nth 199 grid 0 = Portfolio.list_max strikes * 1.4
  /\ (forall i j, (i <= j)%nat -> (j < 200)%nat ->
      nth i grid 0 <= nth j grid 0)
  /\ forall position, In position portfolio ->
       nth 0 grid 0 <= Portfolio.strike position <= nth 199 grid 0.
Proof.
  intros Hne Hall grid strikes.
  assert (Hstrikes : forall K, In K strikes -> 1 <= K).
  { intros K HK. apply in_map_iff in HK. destruct HK as [pos [<- Hin]].
    rewrite Forall_forall in Hall. apply Hall, Hin. }
  set (m := Portfolio.list_min strikes).
  set (M := Portfolio.list_max strikes).
  assert (Hm : 1 <= m /\ forall K, In K strikes -> m <= K <= M).
  { unfold m, M, strikes in *.
    destruct portfolio as [ | p rest]; [ contradiction | ].
    cbn [map Portfolio.list_min Portfolio.list_max] in *.
    destruct (fold_left_Rmin_bounds (map Portfolio.strike rest)
                (Portfolio.strike p) 1) as [H1 [H2 H3]].
    { apply Hstrikes. left. reflexivity. }
    { intros y Hy. apply Hstrikes. right. exact Hy. }
    destruct (fold_left_Rmax_bounds (map Portfolio.strike rest)
                (Portfolio.strike p)) as [H4 H5].
    split; [ exact H1 | ].
    intros K [<- | HK]; split; auto. }
  destruct Hm as [Hm1 HmM].
  assert (HmM' : m <= M).
  { destruct portfolio as [ | p rest]; [ contradiction | ].
    destruct (HmM (Portfolio.strike p)); [ left; reflexivity | lra ]. }
  set (lo := Rmax 1 (m * 0.6)). set (hi := M * 1.4).
  assert (Hlo : lo <= hi /\ forall K, In K strikes -> lo <= K <= hi).
  { unfold lo, hi, Rmax.
    destruct (Rle_dec 1 (m * 0.6)); split; try lra;
      intros K HK; destruct (HmM K HK);
      pose proof (Hstrikes K HK); lra. }
  destruct Hlo as [Hlohi Hcover].
  assert (H199 : INR (200 - 1) = 199)
    by (rewrite INR_IZR_INZ; reflexivity).
  assert (Hnth : forall i, (i < 200)%nat ->
                   nth i grid 0 = lo + INR i * ((hi - lo) / 199)).
  { intros i Hi. unfold grid, Portfolio.S_range.
    rewrite linspace_nth by exact Hi. rewrite H199. reflexivity. }
  assert (H0 : nth 0 grid 0 = lo)
    by (rewrite Hnth by lia; simpl; lra).
  assert (Hlast : nth 199 grid 0 = hi).
  { rewrite Hnth by lia.
    replace (INR 199) with 199
      by (rewrite INR_IZR_INZ; reflexivity).
    field. }
  split; [ apply S_range_length | ].
  split; [ exact H0 | ]. split; [ exact Hlast | ]. split.
  - intros i j Hij Hj. rewrite !Hnth by lia.
    assert (INR i <= INR j) by (apply le_INR, Hij).
    assert (0 <= (hi - lo) / 199) by (apply Rmult_le_pos; lra).
    nra.
  - intros position Hin. rewrite H0, Hlast. apply Hcover.
    apply in_map, Hin.
Qed.

Lemma grid_spans_strikes_witness :
  nth 0 (Portfolio.S_range demo_portfolio) 0 <= 100
  <= nth 199 (Portfolio.S_range demo_portfolio) 0.
Proof.
  destruct (grid_spans_strikes demo_portfolio) as [_ [_ [_ [_ H]]]].
  - discriminate.
  - constructor; [ simpl; lra | ].
    constructor; [ simpl; lra | constructor ].
  - apply (H {| Portfolio.option_type := "call"; Portfolio.strike := 100;
                Portfolio.qty := 1; Portfolio.expiry := 59;
                Portfolio.implied_volatility := 0.25;
                Portfolio.premium := 5 |}).
    left. reflexivity.
Defined.

(** ** Prices as functions of one input *)

(** The density is the derivative of the distribution function, up to the
    total mass. *)
Lemma cdf_derivable_pt_lim (y : R) :
  derivable_pt_lim Normal.cdf y (Normal.gauss y / (2 * Normal.half_mass)).
Proof.
  pose proof Normal.half_mass_pos as HL.
  apply (derivable_pt_lim_ext
           (fun z => (Normal.half_mass + Normal.gauss_area z)
                     / (2 * Normal.half_mass))).
  - intro z. reflexivity.
  - apply derivable_pt_lim_div_scal.
    replace (Normal.gauss y) with (0 + Normal.gauss y) by ring.
    apply (derivable_pt_lim_plus (fun _ => Normal.half_mass)
             Normal.gauss_area).
    + apply derivable_pt_lim_const.
    + apply Normal.gauss_area_derivable_pt_lim.
Qed.

Section PriceShape.

(** A price of the Black-Scholes shape in one variable [s]: coefficients
    [a s] and [b s] and the argument [u s], with derivatives [a'], [b']
    and [u'] at [x], the second argument being [u s - v]. *)
Variables (a b u : R -> R) (v x a' b' u' : R).

Hypothesis Ha : derivable_pt_lim a x a'.
Hypothesis Hb : derivable_pt_lim b x b'.
Hypothesis Hu : derivable_pt_lim u x u'.

(** The coefficients balance the densities at [x]. *)
Hypothesis Hbalance :
  a x * Normal.gauss (u x) = b x * Normal.gauss (u x - v).

Lemma cdf_comp_derivable_pt_lim (sign shift : R) :
  derivable_pt_lim (fun s => Normal.cdf (sign * (u s - shift))) x
    (Normal.gauss (sign * (u x - shift)) / (2 * Normal.half_mass)
     * (sign * u')).
Proof.
  apply (derivable_pt_lim_comp (fun s => sign * (u s - shift)) Normal.cdf).
  - apply (derivable_pt_lim_ext
             (mult_real_fct sign (u - (fun _ => shift))%F)).
    + intro z. reflexivity.
    + apply derivable_pt_lim_scal.
      replace u' with (u' - 0) by ring.
      apply derivable_pt_lim_minus;
        [ exact Hu | apply derivable_pt_lim_const ].
  - apply cdf_derivable_pt_lim.
Qed.

Lemma call_shape_derivative :
  derivable_pt_lim
    (fun s => a s * Normal.cdf (u s) - b s * Normal.cdf (u s - v)) x
    (a' * Normal.cdf (u x) - b' * Normal.cdf (u x - v)).
Proof.
  pose proof Normal.half_mass_pos as HL.
  pose proof (cdf_comp_derivable_pt_lim 1 0) as H1.
  pose proof (cdf_comp_derivable_pt_lim 1 v) as H2.
  apply (derivable_pt_lim_ext
           ((a * (fun s => Normal.cdf (1 * (u s - 0))))
            - (b * (fun s => Normal.cdf (1 * (u s - v)))))%F).
  - intro z. unfold minus_fct, mult_fct.
    replace (1 * (u z - 0)) with (u z) by ring.
    replace (1 * (u z - v)) with (u z - v) by ring. reflexivity.
  - replace (a' * Normal.cdf (u x) - b' * Normal.cdf (u x - v))
      with ((a' * Normal.cdf (1 * (u x - 0))
             + a x * (Normal.gauss (1 * (u x - 0))
                      / (2 * Normal.half_mass) * (1 * u')))
            - (b' * Normal.cdf (1 * (u x - v))
               + b x * (Normal.gauss (1 * (u x - v))
                        / (2 * Normal.half_mass) * (1 * u')))).
    + apply derivable_pt_lim_minus.
      * apply (derivable_pt_lim_mult a
                 (fun s => Normal.cdf (1 * (u s - 0)))); assumption.
      * apply (derivable_pt_lim_mult b
                 (fun s => Normal.cdf (1 * (u s - v)))); assumption.
    + replace (1 * (u x - 0)) with (u x) by ring.
      replace (1 * (u x - v)) with (u x - v) by ring.
      assert (E : a x * (Normal.gauss (u x) / (2 * Normal.half_mass)
                         * (1 * u'))
                  = b x * (Normal.gauss (u x - v)
                           / (2 * Normal.half_mass) * (1 * u'))).
      { transitivity (a x * Normal.gauss (u x)
                      / (2 * Normal.half_mass) * u');
          [ field; lra | ].
        rewrite Hbalance. field. lra. }
      lra.
Qed.

Lemma put_shape_derivative :
  derivable_pt_lim
    (fun s => b s * Normal.cdf (- (u s - v)) - a s * Normal.cdf (- u s)) x
    (b' * Normal.cdf (- (u x - v)) - a' * Normal.cdf (- u x)).
Proof.
  pose proof Normal.half_mass_pos as HL.
  pose proof (cdf_comp_derivable_pt_lim (-1) 0) as H1.
  pose proof (cdf_comp_derivable_pt_lim (-1) v) as H2.
  apply (derivable_pt_lim_ext
           ((b * (fun s => Normal.cdf (-1 * (u s - v))))
            - (a * (fun s => Normal.cdf (-1 * (u s - 0)))))%F).
  - intro z. unfold minus_fct, mult_fct.
    replace (-1 * (u z - 0)) with (- u z) by ring.
    replace (-1 * (u z - v)) with (- (u z - v)) by ring. reflexivity.
  - replace (b' * Normal.cdf (- (u x - v)) - a' * Normal.cdf (- u x))
      with ((b' * Normal.cdf (-1 * (u x - v))
             + b x * (Normal.gauss (-1 * (u x - v))
                      / (2 * Normal.half_mass) * (-1 * u')))
            - (a' * Normal.cdf (-1 * (u x - 0))
               + a x * (Normal.gauss (-1 * (u x - 0))
                        / (2 * Normal.half_mass) * (-1 * u')))).
    + apply derivable_pt_lim_minus.
      * apply (derivable_pt_lim_mult b
                 (fun s => Normal.cdf (-1 * (u s - v)))); assumption.
      * apply (derivable_pt_lim_mult a
                 (fun s => Normal.cdf (-1 * (u s - 0)))); assumption.
    + replace (-1 * (u x - 0)) with (- u x) by ring.
      replace (-1 * (u x - v)) with (- (u x - v)) by ring.
      rewrite !Normal.gauss_even.
      assert (E : a x * (Normal.gauss (u x) / (2 * Normal.half_mass)
                         * (-1 * u'))
                  = b x * (Normal.gauss (u x - v)
                           / (2 * Normal.half_mass) * (-1 * u'))).
      { transitivity (a x * Normal.gauss (u x)
                      / (2 * Normal.half_mass) * (-1 * u'));
          [ field; lra | ].
        rewrite Hbalance. field. lra. }
      lra.
Qed.

End PriceShape.

Section PriceDerivatives.

Variables S K T r sigma q : R.

Hypothesis HS : 0 < S.
Hypothesis HK : 0 < K.
Hypothesis HT : 0 < T.
Hypothesis Hsigma : 0 < sigma.

(** The two discounted legs weigh the densities at [d1] and [d2]
    equally. *)
Lemma density_balance :
  S * exp (- (q * T)) * Normal.gauss (Spec.d1 S K T r sigma q)
  = K * exp (- (r * T))
    * Normal.gauss (Spec.d1 S K T r sigma q - sigma * sqrt T).
Proof.
  assert (Hq : 0 < sqrt T) by (apply sqrt_lt_R0, HT).
  assert (Hss : sqrt T * sqrt T = T) by (apply sqrt_sqrt; lra).
  unfold Spec.d1, Normal.gauss.
  set (L := ln (S / K)).
  assert (HSK : S = K * exp L).
  { unfold L. rewrite exp_ln; [ field; lra | ].
    apply Rdiv_lt_0_compat; assumption. }
  set (s := sqrt T) in *.
  rewrite HSK at 1. rewrite <- Hss.
  rewrite !Rmult_assoc, <- !exp_plus. f_equal. f_equal.
  field. lra.
Qed.

Lemma d1_derivable_in_S :
  derivable_pt_lim (fun s => Spec.d1 s K T r sigma q) S
    ((/ (S / K) * (1 / K) + 0) / (sigma * sqrt T)).
Proof.
  unfold Spec.d1. apply derivable_pt_lim_div_scal.
  apply (derivable_pt_lim_plus (fun s => ln (s / K))
           (fun _ => (r - q + sigma ^ 2 / 2) * T)).
  - apply (derivable_pt_lim_comp (fun s => s / K) ln).
    + apply (derivable_pt_lim_div_scal id), derivable_pt_lim_id.
    + apply derivable_pt_lim_ln. apply Rdiv_lt_0_compat; assumption.
  - apply derivable_pt_lim_const.
Qed.

Lemma d1_derivable_in_r :
  derivable_pt_lim (fun rate => Spec.d1 S K T rate sigma q) r
    ((0 + (1 - 0 + 0) * T) / (sigma * sqrt T)).
Proof.
  unfold Spec.d1. apply derivable_pt_lim_div_scal.
  apply (derivable_pt_lim_plus (fun _ => ln (S / K))
           (fun rate => (rate - q + sigma ^ 2 / 2) * T)).
  - apply derivable_pt_lim_const.
  - apply (derivable_pt_lim_scal_right
             (fun rate => rate - q + sigma ^ 2 / 2)).
    apply (derivable_pt_lim_plus (fun rate => rate - q)
             (fun _ => sigma ^ 2 / 2)).
    + apply (derivable_pt_lim_minus id (fun _ => q)).
      * apply derivable_pt_lim_id.
      * apply derivable_pt_lim_const.
    + apply derivable_pt_lim_const.
Qed.

Lemma discount_derivable (k : R) :
  derivable_pt_lim (fun rate => k * exp (- (rate * T))) r
    (k * (exp (- (r * T)) * (- (1 * T)))).
Proof.
  apply (derivable_pt_lim_scal (fun rate => exp (- (rate * T)))).
  apply (derivable_pt_lim_comp (fun rate => - (rate * T)) exp).
  - apply (derivable_pt_lim_opp (fun rate => rate * T)).
    apply (derivable_pt_lim_scal_right id), derivable_pt_lim_id.
  - apply derivable_pt_lim_exp.
Qed.

Lemma spot_leg_derivable :
  derivable_pt_lim (fun s => s * exp (- (q * T))) S (1 * exp (- (q * T))).
Proof.
  apply (derivable_pt_lim_scal_right id), derivable_pt_lim_id.
Qed.

(** The derivative of the call price in the spot price. *)
Lemma call_price_derivative_S :
  derivable_pt_lim (fun s => Spec.call_price s K T r sigma q) S
    (exp (- (q * T)) * Normal.cdf (Spec.d1 S K T r sigma q)).
Proof.
  replace (exp (- (q * T)) * Normal.cdf (Spec.d1 S K T r sigma q))
    with (1 * exp (- (q * T)) * Normal.cdf (Spec.d1 S K T r sigma q)
          - 0 * Normal.cdf (Spec.d1 S K T r sigma q - sigma * sqrt T))
    by ring.
  apply (call_shape_derivative
           (fun s => s * exp (- (q * T)))
           (fun _ => K * exp (- (r * T)))
           (fun s => Spec.d1 s K T r sigma q)
           (sigma * sqrt T) S _ _ _
           spot_leg_derivable
           (derivable_pt_lim_const _ _)
           d1_derivable_in_S density_balance).
Qed.

(** The derivative of the put price in the spot price. *)
Lemma put_price_derivative_S :
  derivable_pt_lim (fun s => Spec.put_price s K T r sigma q) S
    (- (exp (- (q * T)) * Normal.cdf (- Spec.d1 S K T r sigma q))).
Proof.
  replace (- (exp (- (q * T)) * Normal.cdf (- Spec.d1 S K T r sigma q)))
    with (0 * Normal.cdf (- (Spec.d1 S K T r sigma q - sigma * sqrt T))
          - 1 * exp (- (q * T))
            * Normal.cdf (- Spec.d1 S K T r sigma q))
    by ring.
  apply (put_shape_derivative
           (fun s => s * exp (- (q * T)))
           (fun _ => K * exp (- (r * T)))
           (fun s => Spec.d1 s K T r sigma q)
           (sigma * sqrt T) S _ _ _
           spot_leg_derivable
           (derivable_pt_lim_const _ _)
           d1_derivable_in_S density_balance).
Qed.

(** The derivative of the call price in the interest rate. *)
Lemma call_price_derivative_r :
  derivable_pt_lim (fun rate => Spec.call_price S K T rate sigma q) r
    (K * T * exp (- (r * T))
     * Normal.cdf (Spec.d2 S K T r sigma q)).
Proof.
  replace (K * T * exp (- (r * T)) * Normal.cdf (Spec.d2 S K T r sigma q))
    with (0 * Normal.cdf (Spec.d1 S K T r sigma q)
          - K * (exp (- (r * T)) * (- (1 * T)))
            * Normal.cdf (Spec.d1 S K T r sigma q - sigma * sqrt T))
    by (unfold Spec.d2; ring).
  apply (call_shape_derivative
           (fun _ => S * exp (- (q * T)))
           (fun rate => K * exp (- (rate * T)))
           (fun rate => Spec.d1 S K T rate sigma q)
           (sigma * sqrt T) r _ _ _
           (derivable_pt_lim_const _ _)
           (discount_derivable K)
           d1_derivable_in_r density_balance).
Qed.

(** The derivative of the put price in the interest rate. *)
Lemma put_price_derivative_r :
  derivable_pt_lim (fun rate => Spec.put_price S K T rate sigma q) r
    (- K * T * exp (- (r * T))
     * Normal.cdf (- Spec.d2 S K T r sigma q)).
Proof.
  replace (- K * T * exp (- (r * T))
           * Normal.cdf (- Spec.d2 S K T r sigma q))
    with (K * (exp (- (r * T)) * (- (1 * T)))
          * Normal.cdf (- (Spec.d1 S K T r sigma q - sigma * sqrt T))
          - 0 * Normal.cdf (- Spec.d1 S K T r sigma q))
    by (unfold Spec.d2; ring).
  apply (put_shape_derivative
           (fun _ => S * exp (- (q * T)))
           (fun rate => K * exp (- (rate * T)))
           (fun rate => Spec.d1 S K T rate sigma q)
           (sigma * sqrt T) r _ _ _
           (derivable_pt_lim_const _ _)
           (discount_derivable K)
           d1_derivable_in_r density_balance).
Qed.

End PriceDerivatives.

Lemma numeric_cons (v : pyval) (vals : list pyval) :
  numeric v -> Forall numeric vals -> Forall numeric (v :: vals).
Proof. intros. constructor; assumption. Qed.

(** X18.  Delta is the sensitivity of the price to the spot price: for
    positive [S], [K], [T] and [sigma] and either option type, [delta()]
    of the [GreekCalculator] at [S] is the derivative at [S] of the price
    that [black_scholes] returns without dividends, taken as a function
    of the spot price. *)
Theorem delta_is_spot_derivative (K T r sigma option_type : pyval) (S : R) :
  Forall numeric [K; T; r; sigma] -> valid_option_type option_type ->
  0 < S -> 0 < to_R K -> 0 < to_R T -> 0 < to_R sigma ->
  let price := fun s =>
    Spec.bsm_price (is_call option_type) s (to_R K) (to_R T) (to_R r)
      (to_R sigma) 0 in
  exists greek,
    Greeks.__init__ (PyFloat S) K T r sigma option_type = Ok greek
    /\ (forall s, 0 < s ->
        Pricing.black_scholes (PyFloat s) K T r sigma option_type (PyInt 0)
        = Ok (price s))
    /\ derivable_pt_lim price S (Greeks.delta greek).
Proof.
  intros Hn Hv HS HK HT Hs price.
  exists (greek_object (PyFloat S) K T r sigma option_type).
  split; [ | split ].
  - apply init_positive; try assumption.
    apply numeric_cons; [ reflexivity | exact Hn ].
  - intros s Hs0. apply black_scholes_formula; try assumption.
    + apply numeric_cons; [ reflexivity | ].
      inversion Hn as [ | ? ? H1 Hn1 ]; subst.
      inversion Hn1 as [ | ? ? H2 Hn2 ]; subst.
      inversion Hn2 as [ | ? ? H3 Hn3 ]; subst.
      inversion Hn3 as [ | ? ? H4 Hn4 ]; subst.
      repeat constructor; assumption.
    + apply positive_not_zero_division, HK.
  - rewrite delta_greek_object. unfold price. cbn [to_R].
    destruct (is_call option_type).
    + apply (derivable_pt_lim_ext
               (fun s => Spec.call_price s (to_R K) (to_R T) (to_R r)
                           (to_R sigma) 0));
        [ reflexivity | ].
      replace (Normal.cdf _)
        with (exp (- (0 * to_R T))
              * Normal.cdf (Spec.d1 S (to_R K) (to_R T) (to_R r)
                              (to_R sigma) 0))
        by (replace (- (0 * to_R T)) with 0 by ring; rewrite exp_0; ring).
      apply call_price_derivative_S; assumption.
    + apply (derivable_pt_lim_ext
               (fun s => Spec.put_price s (to_R K) (to_R T) (to_R r)
                           (to_R sigma) 0));
        [ reflexivity | ].
      replace (Normal.cdf _ - 1)
        with (- (exp (- (0 * to_R T))
                 * Normal.cdf (- Spec.d1 S (to_R K) (to_R T) (to_R r)
                                   (to_R sigma) 0)))
        by (replace (- (0 * to_R T)) with 0 by ring;
            rewrite exp_0, Normal.cdf_opp; ring).
      apply put_price_derivative_S; assumption.
Qed.

Lemma delta_is_spot_derivative_witness :
  exists greek,
    Greeks.__init__ (PyFloat 100) (PyInt 105) (PyInt 1) (PyFloat 0.05)
      (PyFloat 0.2) (PyStr "put") = Ok greek
    /\ derivable_pt_lim
         (fun s => Spec.bsm_price false s 105 1 0.05 0.2 0) 100
         (Greeks.delta greek).
Proof.
  destruct (delta_is_spot_derivative (PyInt 105) (PyInt 1) (PyFloat 0.05)
              (PyFloat 0.2) (PyStr "put") 100) as [greek [Hg [_ Hd]]];
    try concrete.
  exists greek. split; [ exact Hg | exact Hd ].
Defined.

(** X19.  Rho is the sensitivity of the price to the interest rate: for
    positive [S], [K], [T] and [sigma] and either option type, [rho()] of
    the [GreekCalculator] at the rate [r] is the derivative at [r] of the
    price that [black_scholes] returns without dividends, taken as a
    function of the rate. *)
Theorem rho_is_rate_derivative (S K T sigma option_type : pyval) (r : R) :
  Forall numeric [S; K; T; sigma] -> valid_option_type option_type ->
  0 < to_R S -> 0 < to_R K -> 0 < to_R T -> 0 < to_R sigma ->
  let price := fun rate =>
    Spec.bsm_price (is_call option_type) (to_R S) (to_R K) (to_R T) rate
      (to_R sigma) 0 in
  exists greek,
    Greeks.__init__ S K T (PyFloat r) sigma option_type = Ok greek
    /\ (forall rate,
        Pricing.black_scholes S K T (PyFloat rate) sigma option_type
          (PyInt 0)
        = Ok (price rate))
    /\ derivable_pt_lim price r (Greeks.rho greek).
Proof.
  intros Hn Hv HS HK HT Hs price.
  inversion Hn as [ | ? ? H1 Hn1 ]; subst.
  inversion Hn1 as [ | ? ? H2 Hn2 ]; subst.
  inversion Hn2 as [ | ? ? H3 Hn3 ]; subst.
  inversion Hn3 as [ | ? ? H4 Hn4 ]; subst.
  exists (greek_object S K T (PyFloat r) sigma option_type).
  split; [ | split ].
  - apply init_positive; try assumption.
    repeat constructor; assumption.
  - intro rate. apply black_scholes_formula; try assumption.
    + repeat constructor; assumption.
    + apply positive_not_zero_division, HK.
  - unfold price, Greeks.rho.
    cbn [greek_object Greeks.K Greeks.T Greeks.r Greeks.option_type
         Greeks.d2 to_R].
    replace (- r * to_R T) with (- (r * to_R T)) by ring.
    destruct (is_call option_type).
    + apply (derivable_pt_lim_ext
               (fun rate => Spec.call_price (to_R S) (to_R K) (to_R T) rate
                              (to_R sigma) 0));
        [ reflexivity | ].
      apply (call_price_derivative_r (to_R S) (to_R K) (to_R T) r
               (to_R sigma) 0); assumption.
    + apply (derivable_pt_lim_ext
               (fun rate => Spec.put_price (to_R S) (to_R K) (to_R T) rate
                              (to_R sigma) 0));
        [ reflexivity | ].
      apply (put_price_derivative_r (to_R S) (to_R K) (to_R T) r
               (to_R sigma) 0); assumption.
Qed.

Lemma rho_is_rate_derivative_witness :
  exists greek,
    Greeks.__init__ (PyInt 100) (PyInt 105) (PyInt 1) (PyFloat 0.05)
      (PyFloat 0.2) (PyStr "call") = Ok greek
    /\ derivable_pt_lim
         (fun rate => Spec.bsm_price true 100 105 1 rate 0.2 0) 0.05
         (Greeks.rho greek).
Proof.
  destruct (rho_is_rate_derivative (PyInt 100) (PyInt 105) (PyInt 1)
              (PyFloat 0.2) (PyStr "call") 0.05) as [greek [Hg [_ Hd]]];
    try concrete.
  exists greek. split; [ exact Hg | exact Hd ].
Defined.

(** ** Monotone prices and their bounds *)

(** Far to the left the distribution function is as small as wanted. *)
Lemma cdf_left_tail (eps : R) :
  0 < eps -> exists y0, forall y, y <= y0 -> Normal.cdf y < eps.
Proof.
  intro Heps. pose proof Normal.half_mass_pos as HL.
  set (delta := 2 * Normal.half_mass * eps).
  assert (Hdelta : 0 < delta) by (apply Rmult_lt_0_compat; lra).
  destruct (classic
              (exists x, Normal.half_mass - delta < Normal.gauss_area x))
    as [[x Hx] | Hnone].
  - exists (- x). intros y Hy.
    pose proof (Normal.gauss_area_increasing y (- x) Hy) as Hmono.
    rewrite Normal.gauss_area_odd in Hmono.
    unfold Normal.cdf.
    apply (Rmult_lt_reg_r (2 * Normal.half_mass)); [ lra | ].
    unfold Rdiv. rewrite Rmult_assoc, Rinv_l by lra.
    unfold delta in Hx. lra.
  - exfalso.
    assert (Hub : is_upper_bound Normal.gauss_area_values
                    (Normal.half_mass - delta)).
    { intros z [x ->]. apply Rnot_lt_le. intro H. apply Hnone.
      exists x. exact H. }
    pose proof (proj2 Normal.half_mass_lub _ Hub). lra.
Qed.

Lemma ln_le_exp (x e : R) : 0 < x -> x <= exp e -> ln x <= e.
Proof.
  intros Hx [Hlt | Heq].
  - left. rewrite <- (ln_exp e). apply ln_increasing; assumption.
  - rewrite Heq, ln_exp. apply Rle_refl.
Qed.

Section PriceBounds.

Variables T r sigma q : R.

Hypothesis HT : 0 < T.
Hypothesis Hsigma : 0 < sigma.

Let v_pos : 0 < sigma * sqrt T.
Proof. apply Rmult_lt_0_compat; [ exact Hsigma | apply sqrt_lt_R0, HT ]. Qed.

(** The call price does not fall and the put price does not rise when
    the spot price rises. *)
Lemma call_price_increasing_in_S (K S1 S2 : R) :
  0 < K -> 0 < S1 -> S1 <= S2 ->
  Spec.call_price S1 K T r sigma q <= Spec.call_price S2 K T r sigma q.
Proof.
  intros HK H1 [H12 | ->]; [ | apply Rle_refl ].
  destruct (MVT_cor2
              (fun s => Spec.call_price s K T r sigma q)
              (fun s => exp (- (q * T))
                        * Normal.cdf (Spec.d1 s K T r sigma q))
              S1 S2 H12) as [c [E Hc]].
  - intros c Hc. apply call_price_derivative_S; (assumption || lra).
  - pose proof (exp_pos (- (q * T))).
    pose proof (Normal.cdf_range (Spec.d1 c K T r sigma q)).
    assert (0 <= exp (- (q * T)) * Normal.cdf (Spec.d1 c K T r sigma q)
                 * (S2 - S1))
      by (apply Rmult_le_pos; [ apply Rmult_le_pos | ]; lra).
    lra.
Qed.

Lemma put_price_decreasing_in_S (K S1 S2 : R) :
  0 < K -> 0 < S1 -> S1 <= S2 ->
  Spec.put_price S2 K T r sigma q <= Spec.put_price S1 K T r sigma q.
Proof.
  intros HK H1 [H12 | ->]; [ | apply Rle_refl ].
  destruct (MVT_cor2
              (fun s => Spec.put_price s K T r sigma q)
              (fun s => - (exp (- (q * T))
                           * Normal.cdf (- Spec.d1 s K T r sigma q)))
              S1 S2 H12) as [c [E Hc]].
  - intros c Hc. apply put_price_derivative_S; (assumption || lra).
  - pose proof (exp_pos (- (q * T))).
    pose proof (Normal.cdf_range (- Spec.d1 c K T r sigma q)).
    assert (0 <= exp (- (q * T))
                 * Normal.cdf (- Spec.d1 c K T r sigma q) * (S2 - S1))
      by (apply Rmult_le_pos; [ apply Rmult_le_pos | ]; lra).
    lra.
Qed.

(** The call price is not negative: it does not fall with the spot
    price, and for small spot prices it is as close to zero as wanted. *)
Lemma call_price_nonneg (S K : R) :
  0 < S -> 0 < K -> 0 <= Spec.call_price S K T r sigma q.
Proof.
  intros HS HK. apply Rnot_lt_le. intro Hneg.
  set (B := K * exp (- (r * T))).
  assert (HB : 0 < B)
    by (apply Rmult_lt_0_compat; [ exact HK | apply exp_pos ]).
  destruct (cdf_left_tail (- Spec.call_price S K T r sigma q / B))
    as [y0 Hy0].
  { apply Rdiv_lt_0_compat; lra. }
  set (c := (r - q + sigma ^ 2 / 2) * T).
  set (v := sigma * sqrt T).
  set (s := Rmin S (K * exp (v * (y0 + v) - c))).
  assert (Hs : 0 < s).
  { apply Rmin_pos; [ exact HS | ].
    apply Rmult_lt_0_compat; [ exact HK | apply exp_pos ]. }
  assert (HsS : s <= S) by apply Rmin_l.
  assert (Hd2 : Spec.d2 s K T r sigma q <= y0).
  { unfold Spec.d2, Spec.d1. fold c. fold v.
    assert (Hln : ln (s / K) <= v * (y0 + v) - c).
    { apply ln_le_exp; [ apply Rdiv_lt_0_compat; assumption | ].
      apply (Rmult_le_reg_r K); [ exact HK | ].
      unfold Rdiv. rewrite Rmult_assoc, Rinv_l by lra.
      rewrite Rmult_1_r, Rmult_comm. apply Rmin_r. }
    assert (Hq : (ln (s / K) + c) / v <= y0 + v).
    { apply (Rmult_le_reg_r v); [ exact v_pos | ].
      unfold Rdiv. rewrite Rmult_assoc, Rinv_l
        by (pose proof v_pos; unfold v; lra).
      lra. }
    lra. }
  pose proof (Hy0 _ Hd2) as Hsmall.
  pose proof (call_price_increasing_in_S K s S HK Hs HsS) as Hmono.
  assert (Hlow : - (B * Normal.cdf (Spec.d2 s K T r sigma q))
                 <= Spec.call_price s K T r sigma q).
  { unfold Spec.call_price. fold B.
    pose proof (exp_pos (- (q * T))).
    pose proof (Normal.cdf_range (Spec.d1 s K T r sigma q)).
    assert (0 <= s * exp (- (q * T))
                 * Normal.cdf (Spec.d1 s K T r sigma q))
      by (apply Rmult_le_pos; [ apply Rmult_le_pos | ]; lra).
    lra. }
  assert (Hcap : B * Normal.cdf (Spec.d2 s K T r sigma q)
                 < - Spec.call_price S K T r sigma q).
  { replace (- Spec.call_price S K T r sigma q)
      with (B * (- Spec.call_price S K T r sigma q / B))
      by (field; lra).
    apply Rmult_lt_compat_l; assumption. }
  lra.
Qed.

End PriceBounds.

Lemma ln_quotient (x y : R) : 0 < x -> 0 < y -> ln (x / y) = ln x - ln y.
Proof.
  intros Hx Hy. unfold Rdiv.
  rewrite ln_mult by (assumption || apply Rinv_0_lt_compat, Hy).
  rewrite ln_Rinv by exact Hy. ring.
Qed.

(** A put is a call with spot and strike, and rate and yield, swapped. *)
Lemma put_call_symmetry (S K T r sigma q : R) :
  0 < S -> 0 < K -> 0 < T -> 0 < sigma ->
  Spec.put_price S K T r sigma q = Spec.call_price K S T q sigma r.
Proof.
  intros HS HK HT Hs.
  assert (Hq : 0 < sqrt T) by (apply sqrt_lt_R0, HT).
  assert (Hss : sqrt T * sqrt T = T) by (apply sqrt_sqrt; lra).
  assert (E1 : Spec.d1 K S T q sigma r = - Spec.d2 S K T r sigma q).
  { unfold Spec.d2, Spec.d1.
    rewrite !ln_quotient by assumption.
    set (s := sqrt T) in *. rewrite <- Hss. field. lra. }
  assert (E2 : Spec.d2 K S T q sigma r = - Spec.d1 S K T r sigma q).
  { unfold Spec.d2 at 1. rewrite E1. unfold Spec.d2. ring. }
  unfold Spec.put_price, Spec.call_price. rewrite E1, E2. reflexivity.
Qed.

Lemma put_price_nonneg (S K T r sigma q : R) :
  0 < S -> 0 < K -> 0 < T -> 0 < sigma ->
  0 <= Spec.put_price S K T r sigma q.
Proof.
  intros HS HK HT Hs. rewrite put_call_symmetry by assumption.
  apply call_price_nonneg; assumption.
Qed.

Lemma call_minus_put (S K T r sigma q : R) :
  Spec.call_price S K T r sigma q - Spec.put_price S K T r sigma q
  = S * exp (- (q * T)) - K * exp (- (r * T)).
Proof.
  unfold Spec.call_price, Spec.put_price.
  rewrite !Normal.cdf_opp. ring.
Qed.

Lemma prices_below_legs (S K T r sigma q : R) :
  0 < S -> 0 < K ->
  Spec.call_price S K T r sigma q <= S * exp (- (q * T))
  /\ Spec.put_price S K T r sigma q <= K * exp (- (r * T)).
Proof.
  intros HS HK. unfold Spec.call_price, Spec.put_price.
  set (d1 := Spec.d1 _ _ _ _ _ _). set (d2 := Spec.d2 _ _ _ _ _ _).
  pose proof (Normal.cdf_range d1). pose proof (Normal.cdf_range d2).
  pose proof (Normal.cdf_range (- d1)).
  pose proof (Normal.cdf_range (- d2)).
  assert (0 < S * exp (- (q * T)))
    by (apply Rmult_lt_0_compat; [ exact HS | apply exp_pos ]).
  assert (0 < K * exp (- (r * T)))
    by (apply Rmult_lt_0_compat; [ exact HK | apply exp_pos ]).
  split; nra.
Qed.

(** Both prices on positive inputs. *)
Lemma both_prices (S K T r sigma q : pyval) :
  Forall numeric [S; K; T; r; sigma; q] ->
  0 < to_R K -> 0 < to_R T -> 0 < to_R sigma ->
  Pricing.black_scholes S K T r sigma (PyStr "call") q
  = Ok (Spec.call_price (to_R S) (to_R K) (to_R T) (to_R r) (to_R sigma)
          (to_R q))
  /\ Pricing.black_scholes S K T r sigma (PyStr "put") q
     = Ok (Spec.put_price (to_R S) (to_R K) (to_R T) (to_R r) (to_R sigma)
             (to_R q)).
Proof.
  intros Hn HK HT Hs.
  pose proof (positive_not_zero_division S K HK) as Hz.
  split.
  - rewrite black_scholes_formula; try assumption; [ reflexivity | ].
    left. reflexivity.
  - rewrite black_scholes_formula; try assumption; [ reflexivity | ].
    right. reflexivity.
Qed.

(** X20.  No-arbitrage bounds: for positive [S], [K], [T] and [sigma]
    the call price lies between [max(S exp (- q T) - K exp (- r T), 0)]
    and [S exp (- q T)], and the put price between
    [max(K exp (- r T) - S exp (- q T), 0)] and [K exp (- r T)]; in
    particular no price is negative. *)
Theorem price_bounds (S K T r sigma q : pyval) :
  Forall numeric [S; K; T; r; sigma; q] ->
  0 < to_R S -> 0 < to_R K -> 0 < to_R T -> 0 < to_R sigma ->
  let forward := to_R S * exp (- (to_R q * to_R T)) in
  let strike := to_R K * exp (- (to_R r * to_R T)) in
  exists call_price put_price,
    Pricing.black_scholes S K T r sigma (PyStr "call") q = Ok call_price
    /\ Pricing.black_scholes S K T r sigma (PyStr "put") q = Ok put_price
    /\ Rmax (forward - strike) 0 <= call_price <= forward
    /\ Rmax (strike - forward) 0 <= put_price <= strike.
Proof.
  intros Hn HS HK HT Hs forward strike.
  destruct (both_prices S K T r sigma q Hn HK HT Hs) as [Ec Ep].
  eexists. eexists. split; [ exact Ec | ]. split; [ exact Ep | ].
  pose proof (call_price_nonneg (to_R T) (to_R r) (to_R sigma) (to_R q)
                HT Hs (to_R S) (to_R K) HS HK) as Hc.
  pose proof (put_price_nonneg (to_R S) (to_R K) (to_R T) (to_R r)
                (to_R sigma) (to_R q) HS HK HT Hs) as Hp.
  pose proof (call_minus_put (to_R S) (to_R K) (to_R T) (to_R r)
                (to_R sigma) (to_R q)) as Hpar.
  destruct (prices_below_legs (to_R S) (to_R K) (to_R T) (to_R r)
              (to_R sigma) (to_R q) HS HK) as [Hcu Hpu].
  fold forward in Hpar, Hcu. fold strike in Hpar, Hpu.
  unfold Rmax.
  destruct (Rle_dec (forward - strike) 0),
           (Rle_dec (strike - forward) 0); lra.
Qed.

Lemma price_bounds_witness :
  exists call_price put_price,
    Pricing.black_scholes (PyInt 100) (PyInt 105) (PyInt 1) (PyFloat 0.05)
      (PyFloat 0.2) (PyStr "call") (PyFloat 0.02) = Ok call_price
    /\ Pricing.black_scholes (PyInt 100) (PyInt 105) (PyInt 1)
         (PyFloat 0.05) (PyFloat 0.2) (PyStr "put") (PyFloat 0.02)
       = Ok put_price
    /\ Rmax (100 * exp (- (0.02 * 1)) - 105 * exp (- (0.05 * 1))) 0
       <= call_price <= 100 * exp (- (0.02 * 1))
    /\ Rmax (105 * exp (- (0.05 * 1)) - 100 * exp (- (0.02 * 1))) 0
       <= put_price <= 105 * exp (- (0.05 * 1)).
Proof.
  apply (price_bounds (PyInt 100) (PyInt 105) (PyInt 1) (PyFloat 0.05)
           (PyFloat 0.2) (PyFloat 0.02)); concrete.
Defined.

(** X21.  The price moves with the spot price in one direction only: for
    positive [K], [T] and [sigma] and spot prices [0 < S1 <= S2], the
    call is worth no less at [S2] than at [S1] and the put no more. *)
Theorem price_monotone_in_spot (K T r sigma q : pyval) (S1 S2 : R) :
  Forall numeric [K; T; r; sigma; q] ->
  0 < to_R K -> 0 < to_R T -> 0 < to_R sigma ->
  0 < S1 -> S1 <= S2 ->
  exists call1 call2 put1 put2,
    Pricing.black_scholes (PyFloat S1) K T r sigma (PyStr "call") q
    = Ok call1
    /\ Pricing.black_scholes (PyFloat S2) K T r sigma (PyStr "call") q
       = Ok call2
    /\ Pricing.black_scholes (PyFloat S1) K T r sigma (PyStr "put") q
       = Ok put1
    /\ Pricing.black_scholes (PyFloat S2) K T r sigma (PyStr "put") q
       = Ok put2
    /\ call1 <= call2 /\ put2 <= put1.
Proof.
  intros Hn HK HT Hs H1 H12.
  destruct (both_prices (PyFloat S1) K T r sigma q) as [Ec1 Ep1];
    try assumption; [ apply numeric_cons; [ reflexivity | exact Hn ] | ].
  destruct (both_prices (PyFloat S2) K T r sigma q) as [Ec2 Ep2];
    try assumption; [ apply numeric_cons; [ reflexivity | exact Hn ] | ].
  do 4 eexists.
  split; [ exact Ec1 | ]. split; [ exact Ec2 | ].
  split; [ exact Ep1 | ]. split; [ exact Ep2 | ].
  cbn [to_R]. split.
  - apply call_price_increasing_in_S; assumption.
  - apply put_price_decreasing_in_S; assumption.
Qed.

Lemma price_monotone_in_spot_witness :
  exists call1 call2 put1 put2,
    Pricing.black_scholes (PyFloat 100) (PyInt 105) (PyInt 1)
      (PyFloat 0.05) (PyFloat 0.2) (PyStr "call") (PyInt 0) = Ok call1
    /\ Pricing.black_scholes (PyFloat 110) (PyInt 105) (PyInt 1)
         (PyFloat 0.05) (PyFloat 0.2) (PyStr "call") (PyInt 0) = Ok call2
    /\ Pricing.black_scholes (PyFloat 100) (PyInt 105) (PyInt 1)
         (PyFloat 0.05) (PyFloat 0.2) (PyStr "put") (PyInt 0) = Ok put1
    /\ Pricing.black_scholes (PyFloat 110) (PyInt 105) (PyInt 1)
         (PyFloat 0.05) (PyFloat 0.2) (PyStr "put") (PyInt 0) = Ok put2
    /\ call1 <= call2 /\ put2 <= put1.
Proof.
  apply (price_monotone_in_spot (PyInt 105) (PyInt 1) (PyFloat 0.05)
           (PyFloat 0.2) (PyInt 0) 100 110); concrete.
Defined.

(** X22.  The price moves with the strike in one direction only: for
    positive [S], [T] and [sigma] and strikes [0 < K1 <= K2], the call is
    worth no more at [K2] than at [K1] and the put no less. *)
Theorem price_monotone_in_strike (S T r sigma q : pyval) (K1 K2 : R) :
  Forall numeric [S; T; r; sigma; q] ->
  0 < to_R S -> 0 < to_R T -> 0 < to_R sigma ->
  0 < K1 -> K1 <= K2 ->
  exists call1 call2 put1 put2,
    Pricing.black_scholes S (PyFloat K1) T r sigma (PyStr "call") q
    = Ok call1
    /\ Pricing.black_scholes S (PyFloat K2) T r sigma (PyStr "call") q
       = Ok call2
    /\ Pricing.black_scholes S (PyFloat K1) T r sigma (PyStr "put") q
       = Ok put1
    /\ Pricing.black_scholes S (PyFloat K2) T r sigma (PyStr "put") q
       = Ok put2
    /\ call2 <= call1 /\ put1 <= put2.
Proof.
  intros Hn HS HT Hs H1 H12.
  assert (H2 : 0 < K2) by lra.
  assert (Hn1 : Forall numeric [S; PyFloat K1; T; r; sigma; q]).
  { inversion Hn as [ | ? ? Ha Hn' ]; subst.
    constructor; [ exact Ha | ].
    apply numeric_cons; [ reflexivity | exact Hn' ]. }
  assert (Hn2 : Forall numeric [S; PyFloat K2; T; r; sigma; q]).
  { inversion Hn as [ | ? ? Ha Hn' ]; subst.
    constructor; [ exact Ha | ].
    apply numeric_cons; [ reflexivity | exact Hn' ]. }
  destruct (both_prices S (PyFloat K1) T r sigma q Hn1) as [Ec1 Ep1];
    try assumption.
  destruct (both_prices S (PyFloat K2) T r sigma q Hn2) as [Ec2 Ep2];
    try assumption.
  do 4 eexists.
  split; [ exact Ec1 | ]. split; [ exact Ec2 | ].
  split; [ exact Ep1 | ]. split; [ exact Ep2 | ].
  cbn [to_R]. split.
  - rewrite <- !(put_call_symmetry _ (to_R S)) by assumption.
    apply put_price_decreasing_in_S; assumption.
  - rewrite !put_call_symmetry by assumption.
    apply call_price_increasing_in_S; assumption.
Qed.

Lemma price_monotone_in_strike_witness :
  exists call1 call2 put1 put2,
    Pricing.black_scholes (PyInt 100) (PyFloat 95) (PyInt 1)
      (PyFloat 0.05) (PyFloat 0.2) (PyStr "call") (PyInt 0) = Ok call1
    /\ Pricing.black_scholes (PyInt 100) (PyFloat 105) (PyInt 1)
         (PyFloat 0.05) (PyFloat 0.2) (PyStr "call") (PyInt 0) = Ok call2
    /\ Pricing.black_scholes (PyInt 100) (PyFloat 95) (PyInt 1)
         (PyFloat 0.05) (PyFloat 0.2) (PyStr "put") (PyInt 0) = Ok put1
    /\ Pricing.black_scholes (PyInt 100) (PyFloat 105) (PyInt 1)
         (PyFloat 0.05) (PyFloat 0.2) (PyStr "put") (PyInt 0) = Ok put2
    /\ call2 <= call1 /\ put1 <= put2.
Proof.
  apply (price_monotone_in_strike (PyInt 100) (PyInt 1) (PyFloat 0.05)
           (PyFloat 0.2) (PyInt 0) 95 105); concrete.
Defined.

(** X23.  Put-call symmetry: for positive [S], [K], [T] and [sigma] the
    put on spot [S] and strike [K] with rate [r] and yield [q] has the
    price of the call on spot [K] and strike [S] with rate [q] and yield
    [r]. *)
Theorem put_is_swapped_call (S K T r sigma q : pyval) :
  Forall numeric [S; K; T; r; sigma; q] ->
  0 < to_R S -> 0 < to_R K -> 0 < to_R T -> 0 < to_R sigma ->
  exists price,
    Pricing.black_scholes S K T r sigma (PyStr "put") q = Ok price
    /\ Pricing.black_scholes K S T q sigma (PyStr "call") r = Ok price.
Proof.
  intros Hn HS HK HT Hs.
  assert (Hn' : Forall numeric [K; S; T; q; sigma; r]).
  { inversion Hn as [ | ? ? H1 Hn1 ]; subst.
    inversion Hn1 as [ | ? ? H2 Hn2 ]; subst.
    inversion Hn2 as [ | ? ? H3 Hn3 ]; subst.
    inversion Hn3 as [ | ? ? H4 Hn4 ]; subst.
    inversion Hn4 as [ | ? ? H5 Hn5 ]; subst.
    inversion Hn5 as [ | ? ? H6 Hn6 ]; subst.
    repeat constructor; assumption. }
  destruct (both_prices S K T r sigma q Hn HK HT Hs) as [_ Ep].
  destruct (both_prices K S T q sigma r Hn' HS HT Hs) as [Ec _].
  eexists. split; [ exact Ep | ].
  rewrite Ec. f_equal. symmetry. apply put_call_symmetry; assumption.
Qed.

Lemma put_is_swapped_call_witness :
  exists price,
    Pricing.black_scholes (PyInt 100) (PyInt 105) (PyInt 1) (PyFloat 0.05)
      (PyFloat 0.2) (PyStr "put") (PyFloat 0.02) = Ok price
    /\ Pricing.black_scholes (PyInt 105) (PyInt 100) (PyInt 1)
         (PyFloat 0.02) (PyFloat 0.2) (PyStr "call") (PyFloat 0.05)
       = Ok price.
Proof.
  apply (put_is_swapped_call (PyInt 100) (PyInt 105) (PyInt 1)
           (PyFloat 0.05) (PyFloat 0.2) (PyFloat 0.02)); concrete.
Defined.

(** ** The form of the portfolio page *)

Module PortfolioForm.

(** What a click does to [st.session_state.portfolio]. *)
Inductive action : Type :=
| Add (option_type : string) (strike : R) (qty_input : Z)
      (position_type : string) (expiry : Z) (iv premium : R)
| Clear.

(** The values the widgets can deliver: the option type is chosen among
    [call] and [put], the quantity is at least [1], the volatility
    slider runs from [5] to [200]. *)
Definition from_widgets (a : action) : Prop :=
  match a with
  | Add option_type _ qty_input _ _ iv _ =>
      (option_type = "call"%string \/ option_type = "put"%string)
      /\ (1 <= qty_input)%Z /\ 5 <= iv <= 200
  | Clear => True
  end.

Definition click (portfolio : list Portfolio.position) (a : action)
  : list Portfolio.position :=
  match a with
  | Add option_type strike qty_input position_type expiry iv premium =>
      portfolio
      ++ [ {| Portfolio.option_type := option_type;
              Portfolio.strike := strike;
              Portfolio.qty :=
                if String.eqb position_type "Long" then qty_input
                else (- qty_input)%Z;
              Portfolio.expiry := expiry;
              Portfolio.implied_volatility := iv;
              Portfolio.premium := premium |} ]
  | Clear => []
  end.

Definition clicks (portfolio : list Portfolio.position)
    (actions : list action) : list Portfolio.position :=
  fold_left click actions portfolio.

End PortfolioForm.

Lemma click_keeps_valid (portfolio : list Portfolio.position)
    (a : PortfolioForm.action) :
  PortfolioForm.from_widgets a ->
  Forall (fun position =>
            valid_position position /\ Portfolio.qty position <> 0%Z)
    portfolio ->
  Forall (fun position =>
            valid_position position /\ Portfolio.qty position <> 0%Z)
    (PortfolioForm.click portfolio a).
Proof.
  intros Ha Hp. destruct a as [ot K qi pt e iv prem | ]; simpl.
  - destruct Ha as [Hot [Hq _]].
    apply Forall_app. split; [ exact Hp | ].
    constructor; [ | constructor ]. split.
    + unfold valid_position, valid_option_type. simpl.
      destruct Hot as [-> | ->]; [ left | right ]; reflexivity.
    + simpl. destruct (String.eqb pt "Long"); lia.
  - constructor.
Qed.

(** X24.  Whatever is clicked in the form, the evaluation never raises:
    starting from a portfolio of [call] and [put] positions with non-zero
    quantities (such as the demonstration portfolio), after any sequence
    of [Add] and [Clear] clicks with values the widgets can deliver every
    position still has a valid option type and a non-zero quantity, and
    the evaluation is either skipped, for an empty portfolio, or returns
    its curves. *)
Theorem form_portfolio_never_raises (portfolio : list Portfolio.position)
    (actions : list PortfolioForm.action) :
  Forall (fun position =>
            valid_position position /\ Portfolio.qty position <> 0%Z)
    portfolio ->
  Forall PortfolioForm.from_widgets actions ->
  let final := PortfolioForm.clicks portfolio actions in
  Forall (fun position =>
            valid_position position /\ Portfolio.qty position <> 0%Z)
    final
  /\ ((final = [] /\ Portfolio.evaluate final = None)
      \/ exists tot, Portfolio.evaluate final = Some (Ok tot)).
Proof.
  intros Hp Ha final.
  assert (Hfinal : Forall (fun position =>
                             valid_position position
                             /\ Portfolio.qty position <> 0%Z) final).
  { unfold final, PortfolioForm.clicks. clear final.
    revert portfolio Hp.
    induction Ha as [ | a actions Hfa Hrest IH]; intros portfolio Hp.
    - exact Hp.
    - simpl. apply IH. apply click_keeps_valid; assumption. }
  split; [ exact Hfinal | ].
  destruct final as [ | position rest] eqn:E.
  - left. split; reflexivity.
  - right.
    destruct (evaluate_curves (position :: rest)) as [tot [Ev _]].
    + discriminate.
    + eapply Forall_impl; [ | exact Hfinal ]. intros pos [H _]. exact H.
    + exists tot. exact Ev.
Qed.

Lemma form_portfolio_never_raises_witness :
  exists tot,
    Portfolio.evaluate
      (PortfolioForm.clicks demo_portfolio
         [PortfolioForm.Clear;
          PortfolioForm.Add "put" 95 3 "Short" 30 25 4.5])
    = Some (Ok tot).
Proof.
  destruct (form_portfolio_never_raises demo_portfolio
              [PortfolioForm.Clear;
               PortfolioForm.Add "put" 95 3 "Short" 30 25 4.5])
    as [_ [[H _] | H]].
  - constructor; [ split; [ left; reflexivity | discriminate ] | ].
    constructor; [ split; [ right; reflexivity | discriminate ] | ].
    constructor.
  - constructor; [ exact I | ].
    constructor; [ | constructor ]. simpl.
    split; [ right; reflexivity | ]. split; [ lia | lra ].
  - discriminate H.
  - exact H.
Defined.

(** ** The maturity field of the simulation page *)

Module SimulationInputs.

Definition is_digit (c : Ascii.ascii) : bool :=
  (48 <=? Ascii.nat_of_ascii c)%nat && (Ascii.nat_of_ascii c <=? 57)%nat.

(** [str.isdigit] on text made of ASCII characters. *)
Definition isdigit (s : string) : bool :=
  match s with
  | EmptyString => false
  | _ => forallb is_digit (list_ascii_of_string s)
  end.

(** [s.replace('.', '', 1)] *)
Fixpoint remove_first_dot (s : string) : string :=
  match s with
  | EmptyString => EmptyString
  | String c rest =>
      if Ascii.eqb c "."%char then rest
      else String c (remove_first_dot rest)
  end.

(** The number a string of digits writes. *)
Fixpoint digits_value (acc : Z) (s : string) : Z :=
  match s with
  | EmptyString => acc
  | String c rest =>
      digits_value (10 * acc + (Z.of_nat (Ascii.nat_of_ascii c) - 48)) rest
  end.

(** The text before the first dot and the text after it. *)
Fixpoint split_at_dot (s : string) : string * string :=
  match s with
  | EmptyString => (EmptyString, EmptyString)
  | String c rest =>
      if Ascii.eqb c "."%char then (EmptyString, rest)
      else let (whole, fraction) := split_at_dot rest in
           (String c whole, fraction)
  end.

(** [float(s)] for digits with at most one dot. *)
Definition float_of_digits (s : string) : R :=
  let (whole, fraction) := split_at_dot s in
  IZR (digits_value 0 whole)
  + IZR (digits_value 0 fraction) / 10 ^ String.length fraction.

(** [T = float(T_input) if T_input.replace('.', '', 1).isdigit() else 1.0] *)
Definition maturity (T_input : string) : R :=
  if isdigit (remove_first_dot T_input) then float_of_digits T_input
  else 1.

End SimulationInputs.

Lemma digits_value_nonneg (s : string) :
  forall acc,
    (0 <= acc)%Z ->
    forallb SimulationInputs.is_digit (list_ascii_of_string s) = true ->
    (0 <= SimulationInputs.digits_value acc s)%Z.
Proof.
  induction s as [ | c rest IH]; intros acc Hacc Hd;
    cbn [list_ascii_of_string forallb SimulationInputs.digits_value] in *.
  - exact Hacc.
  - apply andb_true_iff in Hd. destruct Hd as [Hc Hrest].
    apply IH; [ | exact Hrest ].
    unfold SimulationInputs.is_digit in Hc.
    apply andb_true_iff in Hc. destruct Hc as [Hlo _].
    apply Nat.leb_le in Hlo. lia.
Qed.

Lemma split_at_dot_digits (s : string) :
  forallb SimulationInputs.is_digit
    (list_ascii_of_string (SimulationInputs.remove_first_dot s)) = true ->
  let (whole, fraction) := SimulationInputs.split_at_dot s in
  forallb SimulationInputs.is_digit (list_ascii_of_string whole) = true
  /\ forallb SimulationInputs.is_digit (list_ascii_of_string fraction)
     = true.
Proof.
  induction s as [ | c rest IH]; simpl; intro H.
  - split; reflexivity.
  - destruct (Ascii.eqb c ".").
    + split; [ reflexivity | exact H ].
    + simpl in H. apply andb_true_iff in H. destruct H as [Hc Hrest].
      specialize (IH Hrest).
      destruct (SimulationInputs.split_at_dot rest) as [whole fraction].
      destruct IH as [Hw Hf]. split; [ | exact Hf ].
      simpl. rewrite Hc, Hw. reflexivity.
Qed.

Lemma remove_first_dot_keeps_others (s : string) (c : Ascii.ascii) :
  c <> "."%char ->
  In c (list_ascii_of_string s) ->
  In c (list_ascii_of_string (SimulationInputs.remove_first_dot s)).
Proof.
  intros Hc. induction s as [ | d rest IH]; simpl; intro Hin.
  - exact Hin.
  - destruct (Ascii.eqb d ".") eqn:E.
    + apply Ascii.eqb_eq in E. subst d.
      destruct Hin as [H | H]; [ congruence | exact H ].
    + simpl. destruct Hin as [H | H]; [ left; exact H | right; auto ].
Qed.

(** Text made of ASCII characters only. *)
Definition ascii_text (s : string) : Prop :=
  Forall (fun c => (Ascii.nat_of_ascii c < 128)%nat)
    (list_ascii_of_string s).

(** X25.  The maturity read from an ASCII text field is never negative,
    and any text with a character other than a digit or a dot (a sign,
    an exponent, a space) is read as [1.0]. *)
Theorem maturity_never_negative (T_input : string) :
  ascii_text T_input ->
  0 <= SimulationInputs.maturity T_input
  /\ ((exists c, In c (list_ascii_of_string T_input)
                 /\ c <> "."%char
                 /\ SimulationInputs.is_digit c = false) ->
      SimulationInputs.maturity T_input = 1).
Proof.
  intros _. unfold SimulationInputs.maturity. split.
  - destruct (SimulationInputs.isdigit _) eqn:E; [ | lra ].
    unfold SimulationInputs.isdigit in E.
    assert (Hd : forallb SimulationInputs.is_digit
                   (list_ascii_of_string
                      (SimulationInputs.remove_first_dot T_input)) = true)
      by (destruct (SimulationInputs.remove_first_dot T_input);
          [ discriminate | exact E ]).
    pose proof (split_at_dot_digits T_input Hd) as Hs.
    unfold SimulationInputs.float_of_digits.
    destruct (SimulationInputs.split_at_dot T_input) as [whole fraction].
    destruct Hs as [Hw Hf].
    pose proof (digits_value_nonneg whole 0 (Z.le_refl 0) Hw) as H1.
    pose proof (digits_value_nonneg fraction 0 (Z.le_refl 0) Hf) as H2.
    apply IZR_le in H1. apply IZR_le in H2.
    assert (0 < 10 ^ String.length fraction) by (apply pow_lt; lra).
    assert (0 <= IZR (SimulationInputs.digits_value 0 fraction)
                 / 10 ^ String.length fraction).
    { apply Rmult_le_pos; [ exact H2 | ].
      left. apply Rinv_0_lt_compat. assumption. }
    lra.
  - intros [c [Hin [Hdot Hnd]]].
    destruct (SimulationInputs.isdigit _) eqn:E; [ | reflexivity ].
    exfalso. unfold SimulationInputs.isdigit in E.
    assert (Hd : forallb SimulationInputs.is_digit
                   (list_ascii_of_string
                      (SimulationInputs.remove_first_dot T_input)) = true)
      by (destruct (SimulationInputs.remove_first_dot T_input);
          [ discriminate | exact E ]).
    rewrite forallb_forall in Hd.
    pose proof (Hd c (remove_first_dot_keeps_others T_input c Hdot Hin)).
    congruence.
Qed.

Lemma maturity_never_negative_witness :
  SimulationInputs.maturity "-1" = 1.
Proof.
  apply (maturity_never_negative "-1").
  - repeat constructor.
  - exists "-"%char. split; [ left; reflexivity | ].
    split; [ discriminate | reflexivity ].
Defined.

Example maturity_zero : SimulationInputs.maturity "0" = 0.
Proof.
  unfold SimulationInputs.maturity, SimulationInputs.float_of_digits.
  simpl. lra.
Qed.

Example maturity_two_and_a_half : SimulationInputs.maturity "2.5" = 2.5.
Proof.
  unfold SimulationInputs.maturity, SimulationInputs.float_of_digits.
  simpl. lra.
Qed.
